(** * A shallow embedding of qri-io/value and its filter package

    The Go dynamic value ([interface{}]) is a tagged union; the mutable
    objects the filter engine passes by pointer ([*valueStream] and the
    generic [*iterator] of value.go) live in an explicit heap and are
    referred to by address, so that aliasing and consumption are modelled
    the way the Go code has them.

    Modelling notes:
    - Go [int] is [Z], [byte] is a [Z] in 0..255, [float64] is [PrimFloat.float].
    - Go maps are association lists (keys unique, as in a Go map); iteration
      over [fObjectMapping] follows list order (Go's order is unspecified).
    - Slicing of Go slices is bounded by [len] (slices are assumed to have
      [cap = len]).
    - [io.ReadCloser] inputs of the index-range selector are not modelled.
    - The scanner reads the source byte by byte, where Go's [bufio.Reader]
      reads UTF-8 runes; the two coincide on ASCII sources, and theorems
      about arbitrary sources assume one ([ascii_src]).
    - Values of a foreign named type ([VOther], or a [value.Map] of the
      user's, [VMapCap]) have no kind in the model; [normalizeValue] treats
      them as non-numeric, where Go panics on a named type of kind [Int] or
      [Float64], so theorems on binary operations exclude them
      ([known_kind]).
    - Loops and recursion carry a fuel argument; running out of fuel yields
      [EFuel], which is a modelling artefact, never a Go result. *)

From Stdlib Require Import String Ascii ZArith Bool Lia List.
From Stdlib Require Import PrimFloat SpecFloat FloatOps.
Import ListNotations.

Set Warnings "-register-all".
Local Open Scope Z_scope.

(** ** Values (value.go) *)

Inductive value : Type :=
| VNull
| VBool (b : bool)
| VByte (b : Z)
| VInt (z : Z)
| VFloat (f : float)
| VString (s : string)
| VBytes (bs : list Z)
| VList (l : list value)                       (* []interface{} *)
| VStrMap (m : list (string * value))          (* map[string]interface{} *)
| VIfaceMap (m : list (value * value))         (* map[interface{}]interface{} *)
| VNumLit (f : float)                          (* filter.fNumericLiteral *)
| VLink (path : string)                        (* value.Link *)
| VMapCap (vfk : string -> value) (vfk_err : string -> option string)
                                               (* a value.Map: ValueForKey *)
| VIter (p : nat)                              (* *value.iterator, by address *)
| VStream (p : nat)                            (* *filter.valueStream, by address *)
| VOther (tname : string).                     (* any other Go dynamic type *)

(** Go [error] values produced by the code. *)
Inductive err : Type :=
| EUnexpectedType        (* "unexpected type: %T" *)
| EUnrecognizedType      (* "unrecognized type: %T" (newStream) *)
| EBinaryOp              (* "binary operations are not finished ..." *)
| EResolve (msg : string)(* whatever the Resolver returned *)
| EPanic (why : string)  (* a Go runtime panic *)
| EParse (msg : string)  (* an error of the parser *)
| EFuel.                 (* model artefact: fuel exhausted *)

(** ** The generic iterator of value.go *)

Record iterator := mkIterator { it_i : Z; it_values : list value }.

Definition NewIterator (values : list value) : iterator :=
  {| it_i := -1; it_values := values |}.

(** [func (it *iterator) Next() bool] *)
Definition iterator_Next (it : iterator) : bool * iterator :=
  if Z.leb (Z.of_nat (length (it_values it)) - 1) (it_i it) then (false, it)
  else (true, {| it_i := it_i it + 1; it_values := it_values it |}).

(** [func (it *iterator) Scan(dest Value) error] for a settable [dest];
    [it.values[it.i]] panics out of range. *)
Definition iterator_Scan (it : iterator) : value + err :=
  if Z.leb 0 (it_i it) then
    match nth_error (it_values it) (Z.to_nat (it_i it)) with
    | Some v => inl v
    | None => inr (EPanic "index out of range")
    end
  else inr (EPanic "index out of range").

(** [func (it *iterator) Close() error { return nil }] *)
Definition iterator_Close (it : iterator) : iterator * option err := (it, None).

(** ** The lazy stream of filter/parser.go *)

Record valueStream := mkStream
  { vs_i : nat; vs_done : bool; vs_val : option value; vs_vals : list value }.

(** [func (it *valueStream) Next(v *interface{}) bool]; [None] is [false].
    [val == nil] is [vs_val = None]; a nil [vals] behaves as an empty one. *)
Definition valueStream_Next (s : valueStream) : option value * valueStream :=
  match vs_val s with
  | Some v => (Some v, {| vs_i := vs_i s; vs_done := vs_done s;
                          vs_val := None; vs_vals := vs_vals s |})
  | None =>
      if Nat.eqb (vs_i s) (length (vs_vals s)) || vs_done s then (None, s)
      else match nth_error (vs_vals s) (vs_i s) with
           | Some v => (Some v, {| vs_i := S (vs_i s); vs_done := vs_done s;
                                   vs_val := None; vs_vals := vs_vals s |})
           | None => (None, s)
           end
  end.

(** [func (it *valueStream) Close() error] *)
Definition valueStream_Close (s : valueStream) : valueStream :=
  {| vs_i := vs_i s; vs_done := true; vs_val := vs_val s; vs_vals := vs_vals s |}.

(** ** The heap of pointer objects *)

Inductive obj := OStream (s : valueStream) | OIter (it : iterator).

Definition heap := list obj.

Definition alloc (h : heap) (o : obj) : nat * heap := (length h, h ++ [o]).

Definition upd (h : heap) (p : nat) (o : obj) : heap :=
  firstn p h ++ o :: skipn (S p) h.

Definition get_stream (h : heap) (p : nat) : option valueStream :=
  match nth_error h p with Some (OStream s) => Some s | _ => None end.

Definition get_iter (h : heap) (p : nat) : option iterator :=
  match nth_error h p with Some (OIter it) => Some it | _ => None end.

(** ** Tokens (filter/token.go) and the filter AST (filter/filter.go) *)

Inductive tokenType :=
| IllegalTok | tEOF | tText | tNumber | tDot | tComma | tColon | tPipe
| tLeftBracket | tRightBracket | tLeftBrace | tRightBrace | tLeftParen
| tRightParen | tPlus | tMinus | tStar | tForwardSlash | tLength.

(** [token] ([Type] and [Text] renamed, [Type] being a keyword) without its [Pos]: the scanner never advances [line], [col] or
    [offset], so every position is zero. *)
Record token := mkToken { tokType : tokenType; tokText : string }.

Inductive filter :=
| FNil                                    (* a nil [filter] interface *)
| FStringLiteral (s : string)             (* fStringLiteral *)
| FNumericLiteral (x : float)             (* fNumericLiteral *)
| FLength                                 (* fLength *)
| FSelector (sels : list filter)          (* fSelector *)
| FIdentity                               (* fIdentity *)
| FKeySelector (k : string)               (* fKeySelector *)
| FIndexSelector (i : Z)                  (* fIndexSelector *)
| FIterateAll                             (* fIterateAllSeletor *)
| FIndexRange (start stop : Z) (all : bool)  (* *fIndexRangeSelector *)
| FBinaryOp (left : filter) (op : tokenType) (right : filter)  (* fBinaryOp *)
| FSlice (fs : list filter)               (* fSlice: array construction *)
| FObjectMapping (m : list (string * filter)).  (* fObjectMapping *)

(** ** Evaluation helpers *)

(** A Go [(out interface{}, err error)] result together with the heap. *)
Definition outcome := ((value * option err) * heap)%type.

Definition ok (v : value) (h : heap) : outcome := ((v, None), h).
Definition fail (e : err) (h : heap) : outcome := ((VNull, Some e), h).

Definition nil_deref := EPanic "invalid memory address or nil pointer dereference".
Definition out_of_range := EPanic "index out of range".
Definition bad_slice := EPanic "slice bounds out of range".

(** [m[k]] on a [map[string]interface{}]: the zero value [nil] if absent. *)
Fixpoint str_lookup (k : string) (m : list (string * value)) : value :=
  match m with
  | [] => VNull
  | (k', v) :: r => if String.eqb k k' then v else str_lookup k r
  end.

(** [m[k]] on a [map[interface{}]interface{}] with a [string] key. *)
Fixpoint iface_lookup (k : string) (m : list (value * value)) : value :=
  match m with
  | [] => VNull
  | (VString k', v) :: r => if String.eqb k k' then v else iface_lookup k r
  | _ :: r => iface_lookup k r
  end.

Definition byte_of_ascii (c : ascii) : Z := Z.of_nat (nat_of_ascii c).

(** [s[i]] on a Go string (a byte). *)
Definition string_index (s : string) (i : Z) : value + err :=
  if Z.leb 0 i then
    match String.get (Z.to_nat i) s with
    | Some c => inl (VByte (byte_of_ascii c))
    | None => inr out_of_range
    end
  else inr out_of_range.

(** [l[i]] on a Go slice. *)
Definition list_index {A} (l : list A) (i : Z) : A + err :=
  if Z.leb 0 i then
    match nth_error l (Z.to_nat i) with Some x => inl x | None => inr out_of_range end
  else inr out_of_range.

(** [s[lo:hi]] on a Go string: requires [0 <= lo <= hi <= len(s)]. *)
Definition string_slice (s : string) (lo hi : Z) : string + err :=
  if Z.leb 0 lo && Z.leb lo hi && Z.leb hi (Z.of_nat (String.length s))
  then inl (substring (Z.to_nat lo) (Z.to_nat (hi - lo)) s)
  else inr bad_slice.

(** [l[lo:hi]] on a Go slice. *)
Definition list_slice {A} (l : list A) (lo hi : Z) : list A + err :=
  if Z.leb 0 lo && Z.leb lo hi && Z.leb hi (Z.of_nat (length l))
  then inl (firstn (Z.to_nat (hi - lo)) (skipn (Z.to_nat lo) l))
  else inr bad_slice.

(** [l[lo:]] on a Go slice. *)
Definition list_suffix {A} (l : list A) (lo : Z) : list A + err :=
  if Z.leb 0 lo && Z.leb lo (Z.of_nat (length l))
  then inl (skipn (Z.to_nat lo) l) else inr bad_slice.

(** [float64(i)] for a Go [int]: rounding to nearest. *)
Definition float_of_int (z : Z) : float :=
  SF2Prim (binary_normalize prec emax z 0 false).

(** [normalizeValue]: [None] is the runtime panic of
    [reflect.TypeOf(nil).Kind()]; the flag is [rk == reflect.Float64].
    (The [fStringLiteral] case is unreachable: no filter outputs one.)
    A value of a foreign type is non-numeric here; see [known_kind]. *)
Definition normalizeValue (v : value) : option (value * bool) :=
  match v with
  | VNumLit x => Some (VFloat x, true)
  | VNull => None
  | VInt z => Some (VFloat (float_of_int z), true)
  | VFloat x => Some (VFloat x, true)
  | _ => Some (v, false)
  end.

(** The operator switch of [fBinaryOp.apply]. *)
Definition binop_result (op : tokenType) (l r : value * bool) : value + err :=
  match op, l, r with
  | tStar, (VFloat a, true), (VFloat b, true) => inl (VFloat (PrimFloat.mul a b))
  | tPlus, (VFloat a, true), (VFloat b, true) => inl (VFloat (PrimFloat.add a b))
  | _, _, _ => inr EBinaryOp
  end.

(** [newStream] *)
Definition newStream (v : value) (h : heap) : (value + err) * heap :=
  let mk (s : valueStream) : (value + err) * heap :=
    let (p, h') := alloc h (OStream s) in (inl (VStream p), h') in
  match v with
  | VStream _ => mk (mkStream 0 false (Some v) [])
  | VList l => mk (mkStream 0 false None l)
  | VNull => mk (mkStream 0 false None [])
  | VBool _ | VByte _ | VInt _ | VFloat _ | VString _ | VBytes _
  | VIfaceMap _ | VStrMap _ => mk (mkStream 0 false (Some v) [])
  | _ => (inr EUnrecognizedType, h)
  end.

(** [applyToStream]: pull each element with [Next] and apply [g] to it. *)
Fixpoint applyToStream (fuel : nat) (g : value -> heap -> outcome) (p : nat)
    (acc : list value) (h : heap) : outcome :=
  match fuel with
  | O => fail EFuel h
  | S n =>
      match get_stream h p with
      | None => fail nil_deref h
      | Some s =>
          let (o, s') := valueStream_Next s in
          let h1 := upd h p (OStream s') in
          match o with
          | None => ok (VList acc) h1
          | Some v =>
              match g v h1 with
              | ((r, None), h2) => applyToStream n g p (acc ++ [r]) h2
              | ((_, Some e), h2) => fail e h2
              end
          end
      end
  end.

(** Applying [g] to each of [xs] in order, stopping at the first error. *)
Fixpoint traverse {A} (g : A -> heap -> outcome) (xs : list A) (h : heap)
    : (list value + err) * heap :=
  match xs with
  | [] => (inl [], h)
  | x :: r =>
      match g x h with
      | ((v, None), h1) =>
          match traverse g r h1 with
          | (inl vs, h2) => (inl (v :: vs), h2)
          | (inr e, h2) => (inr e, h2)
          end
      | ((_, Some e), h1) => (inr e, h1)
      end
  end.

(** The loop of [fSelector.apply]: thread the value through each selector;
    on error the failing selector's output is returned with it. *)
Fixpoint chain (g : filter -> value -> heap -> outcome) (sels : list filter)
    (v : value) (h : heap) : outcome :=
  match sels with
  | [] => ok v h
  | s :: r =>
      match g s v h with
      | ((o, None), h1) => chain g r o h1
      | res => res
      end
  end.

(** The [for it.Next() { i++ }] loop of [fLength.apply]. *)
Fixpoint iter_count (fuel : nat) (it : iterator) (i : Z) : option (Z * iterator) :=
  match fuel with
  | O => None
  | S n =>
      let (b, it') := iterator_Next it in
      if b then iter_count n it' (i + 1) else Some (i, it')
  end.

(** The iterator loop of [fIndexSelector.apply]; [inr] is the early
    [return nil, err] of a failed [Scan] (the iterator is left unclosed). *)
Fixpoint iter_index (fuel : nat) (it : iterator) (target i : Z) (out : value)
    : option ((value + err) * iterator) :=
  match fuel with
  | O => None
  | S n =>
      let (b, it') := iterator_Next it in
      if b then
        if Z.eqb i target then
          match iterator_Scan it' with
          | inl v => Some (inl v, it')
          | inr e => Some (inr e, it')
          end
        else iter_index n it' target (i + 1) out
      else Some (inl out, it')
  end.

(** The iterator loop of [fIndexRangeSelector.apply]:
    [if offset--; offset > 0 { continue }] ... [if limit--; limit == 0 { break }]. *)
Fixpoint iter_range (fuel : nat) (it : iterator) (offset limit : Z)
    (res : list value) : option ((list value + err) * iterator) :=
  match fuel with
  | O => None
  | S n =>
      let (b, it') := iterator_Next it in
      if b then
        let offset' := offset - 1 in
        if Z.ltb 0 offset' then iter_range n it' offset' limit res
        else
          match iterator_Scan it' with
          | inr e => Some (inr e, it')
          | inl v =>
              let limit' := limit - 1 in
              if Z.eqb limit' 0 then Some (inl (res ++ [v]), it')
              else iter_range n it' offset' limit' (res ++ [v])
          end
      else Some (inl res, it')
  end.

Section Eval.

(** The [value.Resolver] the filter is built with, called as
    [r.Resolve(ctx, link)] on the link's path. *)
Variable resolve : string -> value * option string.

(** [if link, ok := in.(value.Link); ok { in, err = r.Resolve(ctx, link) ... }] *)
Definition resolve_in (v : value) : value + err :=
  match v with
  | VLink path =>
      match resolve path with
      | (v', None) => inl v'
      | (_, Some m) => inr (EResolve m)
      end
  | _ => inl v
  end.

(** [filter.apply(ctx, r, in)] for every filter node. *)
Fixpoint apply (fuel : nat) (f : filter) (v : value) (h : heap) {struct fuel}
    : outcome :=
  match fuel with
  | O => fail EFuel h
  | S n =>
    let to_stream (p : nat) := applyToStream n (apply n f) p [] h in
    match f with
    | FNil => fail nil_deref h
    | FStringLiteral s =>
        match v with VStream p => to_stream p | _ => ok (VString s) h end
    | FNumericLiteral x => ok (VNumLit x) h
    | FLength =>
        match v with
        | VIter p =>
            match get_iter h p with
            | None => fail nil_deref h
            | Some it =>
                match iter_count n it 0 with
                | None => fail EFuel h
                | Some (i, it') =>
                    let (it'', e) := iterator_Close it' in
                    ((VInt i, e), upd h p (OIter it''))
                end
            end
        | VStream p => to_stream p
        | VString s => ok (VInt (Z.of_nat (String.length s))) h
        | VBytes bs => ok (VInt (Z.of_nat (length bs))) h
        | VIfaceMap m => ok (VInt (Z.of_nat (length m))) h
        | VStrMap m => ok (VInt (Z.of_nat (length m))) h
        | VList l => ok (VInt (Z.of_nat (length l))) h
        | VNull | VBool _ | VByte _ | VInt _ | VFloat _ => ok VNull h
        | _ => fail EUnexpectedType h
        end
    | FSelector sels => chain (apply n) sels v h
    | FIdentity => ok v h
    | FKeySelector k =>
        match resolve_in v with
        | inr e => fail e h
        | inl v =>
            match v with
            | VMapCap vfk _ => ok (vfk k) h
            | VStream p => applyToStream n (apply n f) p [] h
            | VIfaceMap m => ok (iface_lookup k m) h
            | VStrMap m => ok (str_lookup k m) h
            | VList l =>
                match traverse (apply n f) l h with
                | (inl res, h') => ok (VList res) h'
                | (inr e, h') => fail e h'
                end
            | VNull | VBool _ | VByte _ | VInt _ | VFloat _ | VString _
            | VBytes _ => ok VNull h
            | _ => fail EUnexpectedType h
            end
        end
    | FIndexSelector i =>
        match resolve_in v with
        | inr e => fail e h
        | inl v =>
            match v with
            | VIter p =>
                match get_iter h p with
                | None => fail nil_deref h
                | Some it =>
                    match iter_index n it i 0 VNull with
                    | None => fail EFuel h
                    | Some (inr e, it') => fail e (upd h p (OIter it'))
                    | Some (inl out, it') =>
                        let (it'', e) := iterator_Close it' in
                        ((out, e), upd h p (OIter it''))
                    end
                end
            | VStream p => applyToStream n (apply n f) p [] h
            | VString s =>
                match string_index s i with inl b => ok b h | inr e => fail e h end
            | VBytes bs =>
                match list_index bs i with inl b => ok (VByte b) h | inr e => fail e h end
            | VList l =>
                match list_index l i with inl x => ok x h | inr e => fail e h end
            | VNull | VBool _ | VByte _ | VInt _ | VFloat _ | VStrMap _
            | VIfaceMap _ => ok VNull h
            | _ => fail EUnexpectedType h
            end
        end
    | FIterateAll =>
        match resolve_in v with
        | inr e => fail e h
        | inl v =>
            match v with
            | VIter _ => ok v h
            | _ =>
                match newStream v h with
                | (inl s, h') => ok s h'
                | (inr e, h') => fail e h'
                end
            end
        end
    | FIndexRange start stop all =>
        match resolve_in v with
        | inr e => fail e h
        | inl v =>
            match v with
            | VIter p =>
                match get_iter h p with
                | None => fail nil_deref h
                | Some it =>
                    match iter_range n it start stop [] with
                    | None => fail EFuel h
                    | Some (inr e, it') => fail e (upd h p (OIter it'))
                    | Some (inl res, it') =>
                        let (it'', e) := iterator_Close it' in
                        ((VList res, e), upd h p (OIter it''))
                    end
                end
            | VStream p => applyToStream n (apply n f) p [] h
            | VString s =>
                if all then ok v h else
                match string_slice s start stop with
                | inl s' => ok (VString s') h | inr e => fail e h end
            | VBytes bs =>
                if all then ok v h else
                match list_slice bs start stop with
                | inl bs' => ok (VBytes bs') h | inr e => fail e h end
            | VList l =>
                if all then ok v h else
                if Z.eqb stop 0 then
                  match list_suffix l start with
                  | inl l' => ok (VList l') h | inr e => fail e h end
                else
                  match list_slice l start stop with
                  | inl l' => ok (VList l') h | inr e => fail e h end
            | VNull | VBool _ | VByte _ | VInt _ | VFloat _ | VStrMap _
            | VIfaceMap _ => ok VNull h
            | _ => fail EUnexpectedType h
            end
        end
    | FBinaryOp l op r =>
        match apply n l v h with
        | ((_, Some e), h1) => fail e h1
        | ((lv, None), h1) =>
            match normalizeValue lv with
            | None => fail nil_deref h1
            | Some ln =>
                match apply n r v h1 with
                | ((_, Some e), h2) => fail e h2
                | ((rv, None), h2) =>
                    match normalizeValue rv with
                    | None => fail nil_deref h2
                    | Some rn =>
                        match binop_result op ln rn with
                        | inl x => ok x h2
                        | inr e => fail e h2
                        end
                    end
                end
            end
        end
    | FSlice fs =>
        match resolve_in v with
        | inr e => fail e h
        | inl v =>
            match v with
            | VStream p => applyToStream n (apply n f) p [] h
            | _ =>
                match traverse (fun fi => apply n fi v) fs h with
                | (inl vals, h') => ok (VList vals) h'
                | (inr e, h') => fail e h'
                end
            end
        end
    | FObjectMapping m =>
        match v with
        | VStream p => to_stream p
        | _ =>
            match traverse (fun kf => apply n (snd kf) v) m h with
            | (inl vals, h') => ok (VStrMap (combine (map fst m) vals)) h'
            | (inr e, h') => fail e h'
            end
        end
    end
  end.

(** [unpackValueStreams] *)
Fixpoint unpackValueStreams (fuel : nat) (v : value) (h : heap) : outcome :=
  match fuel with
  | O => fail EFuel h
  | S n =>
      match v with
      | VStream p => applyToStream n (unpackValueStreams n) p [] h
      | _ => ok v h
      end
  end.

End Eval.

(** ** The scanner (the unnamed scanner source of package filter)

    The input is the filter source as ASCII characters; [read] returning
    [eof] (rune 0) is the end of the list or a NUL character. A failed
    [unread] after [eof] is a no-op, so "unread" is "leave the character". *)

Definition NUL : ascii := "000".

Definition is_digit (c : ascii) : bool :=
  let n := nat_of_ascii c in Nat.leb 48 n && Nat.leb n 57.

(** [isNumericByte] *)
Definition isNumericByte (c : ascii) : bool := is_digit c || Ascii.eqb c ".".

(** [literalMatch = regexp.MustCompile(`[\w\n_\-]`)] on one character. *)
Definition literalMatch (c : ascii) : bool :=
  let n := nat_of_ascii c in
  is_digit c || (Nat.leb 65 n && Nat.leb n 90) || (Nat.leb 97 n && Nat.leb n 122)
  || Ascii.eqb c "_" || Ascii.eqb c "010" || Ascii.eqb c "-".

Definition is_space (c : ascii) : bool :=
  let n := nat_of_ascii c in (Nat.leb 9 n && Nat.leb n 13) || Nat.eqb n 32.

Fixpoint trim_left (l : list ascii) : list ascii :=
  match l with c :: r => if is_space c then trim_left r else l | [] => [] end.

(** [strings.TrimSpace] on ASCII text (Go also trims the Unicode spaces
    U+0085 and U+00A0, which do not occur in ASCII). *)
Definition TrimSpace (l : list ascii) : string :=
  string_of_list_ascii (rev (trim_left (rev (trim_left l)))).

Definition newTok (t : tokenType) : token := mkToken t EmptyString.

(** [scanner.scanNumber]: [acc] is [s.text]. *)
Fixpoint scanNumber (inp acc : list ascii) : token * list ascii :=
  match inp with
  | [] => (mkToken tNumber (TrimSpace acc), [])
  | c :: r =>
      if isNumericByte c then scanNumber r (acc ++ [c])
      else (mkToken tNumber (TrimSpace acc), inp)
  end.

(** [scanner.scanLiteral] *)
Fixpoint scanLiteral (inp acc : list ascii) : token * list ascii :=
  match inp with
  | [] => (mkToken tText (TrimSpace acc), [])
  | c :: r =>
      if literalMatch c then scanLiteral r (acc ++ [c])
      else (mkToken tText (TrimSpace acc), inp)
  end.

(** [scanner.scanQuotedText] *)
Fixpoint scanQuotedText (inp acc : list ascii) : token * list ascii :=
  match inp with
  | [] => (mkToken tText (TrimSpace acc), [])
  | c :: r =>
      if Ascii.eqb c "034" || Ascii.eqb c NUL then (mkToken tText (TrimSpace acc), r)
      else scanQuotedText r (acc ++ [c])
  end.

(** [s.r.Peek(1)] followed by [isNumericByte(p[0])]. *)
Definition peek_numeric (inp : list ascii) : bool :=
  match inp with c :: _ => isNumericByte c | [] => false end.

(** [scanner.Scan]: one token and the remaining input. *)
Fixpoint Scan (inp : list ascii) : token * list ascii :=
  match inp with
  | [] => (newTok tEOF, [])
  | ch :: r =>
      if Ascii.eqb ch NUL then (newTok tEOF, r)
      else if Ascii.eqb ch "013" || Ascii.eqb ch " " then Scan r
      else if Ascii.eqb ch "|" then (newTok tPipe, r)
      else if Ascii.eqb ch "[" then (newTok tLeftBracket, r)
      else if Ascii.eqb ch "]" then (newTok tRightBracket, r)
      else if Ascii.eqb ch "(" then (newTok tLeftParen, r)
      else if Ascii.eqb ch ")" then (newTok tRightParen, r)
      else if Ascii.eqb ch "{" then (newTok tLeftBrace, r)
      else if Ascii.eqb ch "}" then (newTok tRightBrace, r)
      else if Ascii.eqb ch ":" then (newTok tColon, r)
      else if Ascii.eqb ch "." then
        (if peek_numeric r then scanNumber r [] else (newTok tDot, r))
      else if Ascii.eqb ch "," then (newTok tComma, r)
      else if Ascii.eqb ch "+" then (newTok tPlus, r)
      else if Ascii.eqb ch "-" then
        (if peek_numeric r then scanNumber r [] else (newTok tMinus, r))
      else if Ascii.eqb ch "*" then (newTok tStar, r)
      else if Ascii.eqb ch "/" then (newTok tForwardSlash, r)
      else if is_digit ch then scanNumber inp []
      else if Ascii.eqb ch "034" then scanQuotedText r []
      else scanLiteral r [ch]
  end.

(** The tokens the parser pulls, up to and including the first [tEOF]
    (the parser never reads past it). *)
Fixpoint lex (fuel : nat) (inp : list ascii) : list token :=
  match fuel with
  | O => []
  | S n =>
      let (t, r) := Scan inp in
      match tokType t with tEOF => [t] | _ => t :: lex n r end
  end.

Definition tokens (src : string) : list token :=
  let inp := list_ascii_of_string src in lex (S (length inp)) inp.

(** ** Number parsing on scanner number texts (digits and '.') *)

Fixpoint digits_value (l : list ascii) (acc : Z) : option Z :=
  match l with
  | [] => Some acc
  | c :: r =>
      if is_digit c then digits_value r (10 * acc + Z.of_nat (nat_of_ascii c - 48))
      else None
  end.

(** [strconv.ParseInt(text, 10, 64)]: a nonempty run of decimal digits
    below [2^63]. *)
Definition ParseInt (s : string) : option Z :=
  let l := list_ascii_of_string s in
  match l with
  | [] => None
  | _ => match digits_value l 0 with
         | Some z => if Z.ltb z (2 ^ 63) then Some z else None
         | None => None
         end
  end.

(** [strconv.ParseFloat(text, 64)] on texts made of digits and dots:
    [m.f] with at most one dot and at least one digit, correctly rounded;
    a result out of range is an error ([ErrRange]). *)
Definition ParseFloat (s : string) : option float :=
  let l := list_ascii_of_string s in
  let fix split (l acc : list ascii) : option (list ascii * list ascii) :=
    match l with
    | [] => Some (rev acc, [])
    | c :: r => if Ascii.eqb c "." then
                  (if existsb (fun d => Ascii.eqb d ".") r then None
                   else Some (rev acc, r))
                else split r (c :: acc)
    end in
  match split l [] with
  | None => None
  | Some (ip, fp) =>
      match ip ++ fp with
      | [] => None
      | ds =>
          match digits_value ds 0 with
          | None => None
          | Some m =>
              match m with
              | Z0 => Some zero
              | Zneg _ => None
              | Zpos pm =>
                  let q := SF2Prim (SFdiv prec emax (S754_finite false pm 0)
                             (S754_finite false (Z.to_pos (10 ^ Z.of_nat (length fp))) 0)) in
                  if PrimFloat.is_infinity q then None else Some q
              end
          end
      end
  end.

(** ** The parser (filter/parser.go)

    [pstate] is the parser with its one-token push-back buffer: [buf] is
    [Some t] when [p.buf.n = 1], and [last] is [p.buf.tok]. The scanner's
    tokens are [toks]; past its end it keeps returning [tEOF]. *)

Record pstate := mkPState { toks : list token; buf : option token; last : token }.

Definition eof_tok : token := newTok tEOF.

(** [parser.scan] *)
Definition p_scan (st : pstate) : token * pstate :=
  match buf st with
  | Some t => (t, {| toks := toks st; buf := None; last := last st |})
  | None =>
      match toks st with
      | [] => (eof_tok, {| toks := []; buf := None; last := eof_tok |})
      | t :: r => (t, {| toks := r; buf := None; last := t |})
      end
  end.

(** [parser.unscan] *)
Definition p_unscan (st : pstate) : pstate :=
  {| toks := toks st; buf := Some (last st); last := last st |}.

(** Parser errors: [io.EOF] (normal end of input) or any other error. *)
Inductive perr := PEOF | PErr (msg : string) | PFuel.

Definition presult := (filter * option perr * pstate)%type.

(** [parser.parseTextFilter] *)
Definition parseTextFilter (t : token) : filter :=
  if String.eqb (tokText t) "length" then FLength else FStringLiteral (tokText t).

(** [objf[key] = f] on the [fObjectMapping] being built. *)
Fixpoint obj_insert (key : string) (f : filter) (m : list (string * filter))
    : list (string * filter) :=
  match m with
  | [] => [(key, f)]
  | (k, g) :: r => if String.eqb k key then (k, f) :: r else (k, g) :: obj_insert key f r
  end.

Definition is_binop_tok (t : tokenType) : bool :=
  match t with tStar | tPlus | tMinus => true | _ => false end.

Fixpoint readFilter (fuel : nat) (st : pstate) (f : filter) (fs : list filter)
    : presult :=
  match fuel with
  | O => (FNil, Some PFuel, st)
  | S n =>
    let (t, st1) := p_scan st in
    match tokType t with
    | tDot =>
        match readSelector n (p_unscan st1) [] with
        | (f', Some e, st2) => (f', Some e, st2)
        | (f', None, st2) => readFilter n st2 f' fs
        end
    | tNumber =>
        match ParseFloat (tokText t) with
        | None => (FNil, Some (PErr "strconv.ParseFloat"), st1)
        | Some x => readFilter n st1 (FNumericLiteral x) fs
        end
    | tStar | tPlus | tMinus =>
        match parseBinaryOp n f t st1 with
        | (b, Some e, st2) => (b, Some e, st2)
        | (b, None, st2) => readFilter n st2 b fs
        end
    | tLeftBracket =>
        match parseSliceFilter n st1 0 0 false true with
        | (_, Some e, st2) => (FNil, Some e, st2)
        | (sf, None, st2) => readFilter n st2 sf fs
        end
    | tLeftBrace => parseObjectMap n st1 [] EmptyString
    | tText => readFilter n st1 (parseTextFilter t) fs
    | tComma => (FSlice (fs ++ [f]), None, st1)
    | tPipe =>
        match fs with
        | [] => (f, None, st1)
        | _ => (FSlice (fs ++ [f]), None, st1)
        end
    | tEOF =>
        match fs with
        | [] => (f, Some PEOF, st1)
        | _ => (FSlice (fs ++ [f]), Some PEOF, st1)
        end
    | _ => readFilter n st1 f fs
    end
  end

with readOneFilter (fuel : nat) (st : pstate) : presult :=
  match fuel with
  | O => (FNil, Some PFuel, st)
  | S n =>
    let (t, st1) := p_scan st in
    match tokType t with
    | tDot => readSelector n (p_unscan st1) []
    | tNumber =>
        match ParseFloat (tokText t) with
        | None => (FNil, Some (PErr "strconv.ParseFloat"), st1)
        | Some x => (FNumericLiteral x, None, st1)
        end
    | tStar | tPlus | tMinus => parseBinaryOp n FNil t st1
    | tLeftBracket => parseSliceFilter n st1 0 0 false true
    | tLeftBrace => parseObjectMap n st1 [] EmptyString
    | tText => (parseTextFilter t, None, st1)
    | _ => (FNil, Some (PErr "unexpected token"), p_unscan st1)
    end
  end

with parseBinaryOp (fuel : nat) (left : filter) (t : token) (st : pstate)
    : presult :=
  match fuel with
  | O => (FNil, Some PFuel, st)
  | S n =>
    match readFilter n st FNil [] with
    | (rhs, e, st') => (FBinaryOp left (tokType t) rhs, e, st')
    end
  end

with readSelector (fuel : nat) (st : pstate) (sel : list filter) : presult :=
  match fuel with
  | O => (FNil, Some PFuel, st)
  | S n =>
    let (t, st1) := p_scan st in
    match tokType t with
    | tDot => readSelector n st1 (sel ++ [FIdentity])
    | tText => readSelector n st1 (sel ++ [FKeySelector (tokText t)])
    | tLeftBracket =>
        match parseSliceFilter n st1 0 0 false true with
        | (_, Some e, st2) => (FNil, Some e, st2)
        | (sf, None, st2) => readSelector n st2 (sel ++ [sf])
        end
    | _ => (FSelector sel, None, p_unscan st1)
    end
  end

(** [parser.parseSliceFilter]; [start], [stop] are [r.start], [r.stop]. *)
with parseSliceFilter (fuel : nat) (st : pstate) (start stop : Z)
    (hasColon empty : bool) : presult :=
  match fuel with
  | O => (FNil, Some PFuel, st)
  | S n =>
    let (t, st1) := p_scan st in
    match tokType t with
    | tNumber =>
        match ParseInt (tokText t) with
        | None => (FNil, Some (PErr "strconv.ParseInt"), st1)
        | Some num =>
            if hasColon then parseSliceFilter n st1 start num hasColon false
            else parseSliceFilter n st1 num stop hasColon false
        end
    | tColon => parseSliceFilter n st1 start stop true false
    | tLeftBracket => parseSliceFilter n st1 start stop hasColon empty
    | tRightBracket =>
        if negb hasColon && negb empty then (FIndexSelector start, None, st1)
        else if empty then (FIterateAll, None, st1)
        else (FIndexRange start stop false, None, st1)
    | _ =>
        if hasColon then (FNil, Some (PErr "unexpected token"), st1)
        else
          let am := if Z.eqb start 0 then [] else [FNumericLiteral (float_of_int start)] in
          completeArrayMap n (p_unscan st1) am None
    end
  end

(** [parser.completeArrayMap] *)
with completeArrayMap (fuel : nat) (st : pstate) (am : list filter)
    (cursor : option filter) : presult :=
  match fuel with
  | O => (FNil, Some PFuel, st)
  | S n =>
    let am := match cursor with Some c => am ++ [c] | None => am end in
    let (t, st1) := p_scan st in
    match tokType t with
    | tRightBracket => (FSlice am, None, st1)
    | tComma => completeArrayMap n st1 am None
    | tEOF => (FSlice am, None, p_unscan st1)
    | _ =>
        match readOneFilter n (p_unscan st1) with
        | (_, Some e, st2) => (FNil, Some e, st2)
        | (c, None, st2) => completeArrayMap n st2 am (Some c)
        end
    end
  end

(** [parser.parseObjectMap] *)
with parseObjectMap (fuel : nat) (st : pstate) (objf : list (string * filter))
    (key : string) : presult :=
  match fuel with
  | O => (FNil, Some PFuel, st)
  | S n =>
    let (t, st1) := p_scan st in
    match tokType t with
    | tText =>
        if String.eqb key EmptyString then parseObjectMap n st1 objf (tokText t)
        else (FNil, Some (PErr "unexpected string"), st1)
    | tColon =>
        match readOneFilter n st1 with
        | (_, Some e, st2) => (FNil, Some e, st2)
        | (g, None, st2) => parseObjectMap n st2 (obj_insert key g objf) key
        end
    | tComma => parseObjectMap n st1 objf EmptyString
    | tRightBrace => (FObjectMapping objf, None, st1)
    | _ => (FNil, Some (PErr "unexpected token"), st1)
    end
  end.

(** [parser.filters] *)
Fixpoint filters (fuel : nat) (st : pstate) (fs : list filter)
    : list filter + perr :=
  match fuel with
  | O => inr PFuel
  | S n =>
    match readFilter n st FNil [] with
    | (f, e, st') =>
        let fs' := match f with FNil => fs | _ => fs ++ [f] end in
        match e with
        | None => filters n st' fs'
        | Some PEOF => inl fs'
        | Some e => inr e
        end
    end
  end.

Definition init_pstate (ts : list token) : pstate :=
  {| toks := ts; buf := None; last := mkToken IllegalTok EmptyString |}.

(** [Filter.Apply]: parse the source, run each filter in turn, then unpack
    a resulting stream. *)
Definition Filter_Apply (resolve : string -> value * option string) (fuel : nat)
    (src : string) (source : value) (h : heap) : outcome :=
  match filters fuel (init_pstate (tokens src)) [] with
  | inr _ => fail (EParse "parse error") h
  | inl fs =>
      let fix run (fs : list filter) (v : value) (h : heap) : outcome :=
        match fs with
        | [] => unpackValueStreams fuel v h
        | f :: r =>
            match apply resolve fuel f v h with
            | ((v', None), h') => run r v' h'
            | res => res
            end
        end in
      run fs source h
  end.

(** ** Raw data and the spec's key selection *)

(** Raw Go data: scalars, byte slices, strings, slices of raw data and raw
    mappings (no Link, Map, Iterator, stream or foreign value). *)
Fixpoint raw (v : value) : bool :=
  match v with
  | VNull | VBool _ | VByte _ | VInt _ | VFloat _ | VString _ | VBytes _
  | VStrMap _ | VIfaceMap _ => true
  | VList l => forallb raw l
  | _ => false
  end.

(** Nesting depth of slices. *)
Fixpoint vdepth (v : value) : nat :=
  match v with
  | VList l => S (fold_right (fun x acc => Nat.max (vdepth x) acc) 0%nat l)
  | _ => 1%nat
  end.

(** Key selection [.k] as the spec words it: on a raw mapping the value
    bound to [k] (null when absent), on an ordered sequence [.k] of each
    element in order, on a scalar or null the null value. *)
Fixpoint spec_key_select (k : string) (v : value) : value :=
  match v with
  | VStrMap m => str_lookup k m
  | VIfaceMap m => iface_lookup k m
  | VList l => VList (map (spec_key_select k) l)
  | _ => VNull
  end.

(** ** Token runs inside [[...]] *)

(** Tokens that keep [parseSliceFilter] in its loop without an error: an
    integer number, a colon or a left bracket. *)
Definition is_slice_prefix_tok (t : token) : bool :=
  match tokType t with
  | tNumber => match ParseInt (tokText t) with Some _ => true | None => false end
  | tColon | tLeftBracket => true
  | _ => false
  end.

(** Tokens other than numbers, colons and brackets. *)
Definition is_other_tok (t : token) : bool :=
  match tokType t with
  | tNumber | tColon | tLeftBracket | tRightBracket => false
  | _ => true
  end.

(** The integers of a token run. *)
Fixpoint slice_numbers (pre : list token) : list Z :=
  match pre with
  | [] => []
  | t :: r =>
      match tokType t, ParseInt (tokText t) with
      | tNumber, Some z => z :: slice_numbers r
      | _, _ => slice_numbers r
      end
  end.

Definition slice_has_colon (pre : list token) : bool :=
  existsb (fun t => match tokType t with tColon => true | _ => false end) pre.

(** A resolver that refuses every link, for closed examples. *)
Definition no_resolver (path : string) : value * option string :=
  (VNull, Some "no resolver"%string).

(** A three-element source for the iterator examples. *)
Definition abc : list value := [VString "a"; VString "b"; VString "c"].

(** ** Further definitions: iterator and stream runs *)

(** [func (it *iterator) Key() interface{}]: the current index [i]. *)
Definition iterator_Key (it : iterator) : value := VInt (it_i it).

(** [n] successive calls of [iterator.Next], with their results. *)
Fixpoint iterator_Next_n (n : nat) (it : iterator) : list bool * iterator :=
  match n with
  | O => ([], it)
  | S m =>
      let (b, it1) := iterator_Next it in
      let (bs, it2) := iterator_Next_n m it1 in (b :: bs, it2)
  end.

(** [n] successive calls of [valueStream.Next], with what each delivers. *)
Fixpoint valueStream_Next_n (n : nat) (s : valueStream)
    : list (option value) * valueStream :=
  match n with
  | O => ([], s)
  | S m =>
      let (o, s1) := valueStream_Next s in
      let (os, s2) := valueStream_Next_n m s1 in (o :: os, s2)
  end.

(** The elements [fIndexRangeSelector] collects from an iterator over [l]:
    the loop skips the first [start - 1] elements, then keeps [stop] of them
    ([stop <= 0]: all the rest). *)
Definition range_spec (l : list value) (start stop : Z) : list value :=
  let rest := skipn (Z.to_nat (start - 1)) l in
  if 0 <? stop then firstn (Z.to_nat stop) rest else rest.

(** The elements a stream lifted by newStream delivers. *)
Definition stream_elems (v : value) : option (list value) :=
  match v with
  | VList l => Some l
  | VNull => Some []
  | VStream _ | VBool _ | VByte _ | VInt _ | VFloat _ | VString _ | VBytes _
  | VIfaceMap _ | VStrMap _ => Some [v]
  | _ => None
  end.

(** ** Further definitions: key paths, deep raw data and the lexer *)

Section LexDefs.
Local Open Scope nat_scope.
Local Open Scope list_scope.

(** Source characters that start a key: ASCII letters and underscore. *)
Definition is_letter (c : ascii) : bool :=
  let n := nat_of_ascii c in
  (Nat.leb 65 n && Nat.leb n 90) || (Nat.leb 97 n && Nat.leb n 122) || Ascii.eqb c "_".

(** Characters the key grammar below admits after the first. *)
Definition is_key_char (c : ascii) : bool :=
  is_letter c || is_digit c || Ascii.eqb c "-".

(** A key of a dotted path: a letter or underscore, then letters, digits,
    underscores or dashes. *)
Definition is_key (k : string) : bool :=
  match list_ascii_of_string k with
  | c :: r => is_letter c && forallb is_key_char r
  | [] => false
  end.

(** The source text [.k1.k2...] of a dotted key path. *)
Fixpoint dotted (ks : list string) : string :=
  match ks with
  | [] => EmptyString
  | k :: r => String "." (String.append k (dotted r))
  end.

(** The rest of the input ends a literal: it is empty or starts with a
    character outside [literalMatch]. *)
Definition stops_literal (r : list ascii) : bool :=
  match r with [] => true | c :: _ => negb (literalMatch c) end.

(** The tokens of a dotted key path: a dot and a text token per key. *)
Definition dotted_tokens (ks : list string) : list token :=
  flat_map (fun k => [newTok tDot; mkToken tText k]) ks.

(** The selectors [readSelector] builds for a dotted key path. *)
Definition key_sels (ks : list string) : list filter :=
  flat_map (fun k => [FIdentity; FKeySelector k]) ks.

(** Raw data all the way down (the nested elements of lists and the
    bound values of mappings included). *)
Fixpoint deep_raw (v : value) : bool :=
  match v with
  | VNull | VBool _ | VByte _ | VInt _ | VFloat _ | VString _ | VBytes _ => true
  | VList l => forallb deep_raw l
  | VStrMap m => forallb (fun kv => deep_raw (snd kv)) m
  | VIfaceMap m => forallb (fun kv => deep_raw (snd kv)) m
  | _ => false
  end.

(** Nesting depth through lists and mappings. *)
Fixpoint vdeep (v : value) : nat :=
  match v with
  | VList l => S (fold_right (fun x acc => Nat.max (vdeep x) acc) 0%nat l)
  | VStrMap m => S (fold_right (fun kv acc => Nat.max (vdeep (snd kv)) acc) 0%nat m)
  | VIfaceMap m => S (fold_right (fun kv acc => Nat.max (vdeep (snd kv)) acc) 0%nat m)
  | _ => 1%nat
  end.

(** A nonempty run of digits and dots. *)
Definition number_text (s : string) : bool :=
  match list_ascii_of_string s with
  | [] => false
  | l => forallb isNumericByte l
  end.

(** What one [Scan] step guarantees: an end token is the plain [tEOF]
    token; any other token consumes input; no illegal or keyword token;
    number texts are digit-and-dot runs. *)
Definition scanned_ok (inp : list ascii) (p : token * list ascii) : Prop :=
  let (t, r) := p in
  (tokType t = tEOF -> t = newTok tEOF) /\
  (tokType t <> tEOF -> (length r < length inp)%nat) /\
  tokType t <> IllegalTok /\ tokType t <> tLength /\
  (tokType t = tNumber -> number_text (tokText t) = true).

(** A token before the end of a token list. *)
Definition tok_ok (t : token) : Prop :=
  tokType t <> tEOF /\ tokType t <> IllegalTok /\ tokType t <> tLength /\
  (tokType t = tNumber -> number_text (tokText t) = true).

(** [tokenType.String] *)
Definition tokenType_String (tt : tokenType) : string :=
  match tt with
  | tEOF => "EOF" | tText => "Text" | tNumber => "Number"
  | tDot => "." | tComma => "," | tColon => ":" | tPipe => "|"
  | tLeftBracket => "[" | tRightBracket => "]" | tLeftBrace => "{"
  | tRightBrace => "}" | tLeftParen => "(" | tRightParen => ")"
  | tPlus => "+" | tMinus => "-" | tStar => "*" | tForwardSlash => "/"
  | tLength => "length"
  | IllegalTok => "<unknown>"
  end.

(** The token types [Scan] produces from one punctuation character. *)
Definition is_punct (tt : tokenType) : bool :=
  match tt with
  | tDot | tComma | tColon | tPipe | tLeftBracket | tRightBracket | tLeftBrace
  | tRightBrace | tLeftParen | tRightParen | tPlus | tMinus | tStar
  | tForwardSlash => true
  | _ => false
  end.

(** The source text [.a1... , .b1...] of two dotted paths joined by a comma. *)
Definition comma_src (ks1 ks2 : list string) : string :=
  String.append (dotted ks1) (String "," (dotted ks2)).

(** Characters [strings.TrimSpace] removes but [Scan] neither skips nor
    matches as literal text: tab, vertical tab and form feed. *)
Definition blank_literal (c : ascii) : bool :=
  Ascii.eqb c "009" || Ascii.eqb c "011" || Ascii.eqb c "012".

(** A double-quoted source text. *)
Definition quoted (s : string) : string :=
  String "034" (String.append s (String "034" EmptyString)).

(** Characters [scanQuotedText] reads through: no double quote, no NUL. *)
Definition no_quote (l : list ascii) : bool :=
  forallb (fun c => negb (Ascii.eqb c "034" || Ascii.eqb c NUL)) l.

End LexDefs.

(** ** Further definitions: bracket runs, operands, stream contents *)

Definition is_colon_tok (t : token) : bool :=
  match tokType t with tColon => true | _ => false end.

(** The tokens of a run inside [[...]] before its first colon. *)
Fixpoint before_colon (pre : list token) : list token :=
  match pre with
  | [] => []
  | t :: r => if is_colon_tok t then [] else t :: before_colon r
  end.

(** The tokens of a run inside [[...]] after its first colon. *)
Fixpoint after_colon (pre : list token) : list token :=
  match pre with
  | [] => []
  | t :: r => if is_colon_tok t then r else after_colon r
  end.



(** What a stream still delivers: its pending single value, then, unless
    it was closed, the rest of its list. *)
Definition stream_pending (s : valueStream) : list value :=
  match vs_val s with Some v => [v] | None => [] end
  ++ (if vs_done s then [] else skipn (vs_i s) (vs_vals s)).

(** A stream once it has delivered everything. *)
Definition stream_drained (s : valueStream) : valueStream :=
  mkStream (if vs_done s then vs_i s else length (vs_vals s)) (vs_done s) None (vs_vals s).

(** An ASCII source text, on which reading bytes and reading UTF-8 runes
    coincide. *)
Definition ascii_src (s : string) : bool :=
  forallb (fun c => Nat.ltb (nat_of_ascii c) 128) (list_ascii_of_string s).

(** ** Helper lemmas on the heap *)

Lemma nth_error_app_length {A} (h : list A) (o : A) :
  nth_error (h ++ [o]) (length h) = Some o.
Proof. rewrite nth_error_app2 by lia. rewrite Nat.sub_diag. reflexivity. Qed.

Lemma upd_app_length (h : heap) (o o' : obj) :
  upd (h ++ [o]) (length h) o' = h ++ [o'].
Proof.
  unfold upd. rewrite firstn_app, firstn_all, Nat.sub_diag, firstn_O, app_nil_r.
  rewrite skipn_app, skipn_all2 by (simpl; lia).
  replace (S (length h) - length h)%nat with 1%nat by lia. reflexivity.
Qed.

Local Open Scope string_scope.
Local Open Scope list_scope.

(** ** C2: the iterator contract *)

(** Exhaustion is sticky: once [Next] returns false the iterator is
    unchanged, so every later [Next] returns false too. *)
Lemma iterator_Next_false_sticky (it it' : iterator) :
  iterator_Next it = (false, it') -> it' = it /\ iterator_Next it' = (false, it').
Proof.
  unfold iterator_Next. destruct (Z.leb _ _) eqn:E; intros H; inversion H; subst.
  split; [reflexivity|]. rewrite E. reflexivity.
Qed.

(** C2 (code): [Close] is a no-op, so on [NewIterator ["a";"b";"c"]] a
    [Close] with nothing consumed leaves [Next] returning true three times;
    only exhaustion makes [Next] false. *)
Theorem C2_close_does_not_stop_next :
  let it0 := fst (iterator_Close (NewIterator abc)) in
  let '(b1, it1) := iterator_Next it0 in
  let '(b2, it2) := iterator_Next it1 in
  let '(b3, it3) := iterator_Next it2 in
  let '(b4, it4) := iterator_Next it3 in
  [b1; b2; b3; b4] = [true; true; true; false]
  /\ fst (iterator_Next (fst (iterator_Close it4))) = false.
Proof. vm_compute. split; reflexivity. Qed.

(** ** C3: open-ended index ranges *)

(** [apply] of the index-range selector parsed from [.[1:]]: [start = 1],
    [stop = 0]. *)
Lemma parse_open_range :
  filters 20 (init_pstate (tokens ".[1:]")) []
  = inl [FSelector [FIdentity; FIndexRange 1 0 false]].
Proof. vm_compute. reflexivity. Qed.

(** C3 (code): [.[1:]] over the string "abc" slices [v[1:0]] and panics,
    [.[0:]] over "abc" returns the empty string, while over the ordered
    sequence ["a";"b";"c"] the [stop == 0] case is handled and [.[1:]]
    yields ["b";"c"]. *)
Theorem C3_open_range_on_string :
  forall resolve h,
    fst (Filter_Apply resolve 20 ".[1:]" (VString "abc") h) = (VNull, Some bad_slice)
 /\ fst (Filter_Apply resolve 20 ".[0:]" (VString "abc") h) = (VString EmptyString, None)
 /\ fst (Filter_Apply resolve 20 ".[1:]" (VBytes [97; 98; 99]) h) = (VNull, Some bad_slice)
 /\ fst (Filter_Apply resolve 20 ".[1:]" (VList abc) h)
    = (VList [VString "b"; VString "c"], None).
Proof. intros resolve h. repeat split; vm_compute; reflexivity. Qed.

(** ** C4: leading-dot and unary-minus numerals *)

(** After a [.] or [-] followed by a numeric byte the scanner calls
    [scanNumber] on what follows: the [.] or [-] is read but never written
    to the token text. *)
Lemma Scan_dot_minus_digit (c d : ascii) (r : list ascii) :
  (c = "."%char \/ c = "-"%char) -> isNumericByte d = true ->
  Scan (c :: d :: r) = scanNumber (d :: r) [].
Proof.
  intros [-> | ->] Hd; simpl; rewrite Hd; reflexivity.
Qed.

(** C4 (code): ["-5"] and [".5"] each scan to the single number token
    ["5"]: the token text denotes five, not minus five or one half. *)
Theorem C4_sign_and_dot_dropped :
  Scan (list_ascii_of_string "-5") = (mkToken tNumber "5", [])
  /\ Scan (list_ascii_of_string ".5") = (mkToken tNumber "5", [])
  /\ Scan (list_ascii_of_string "5") = (mkToken tNumber "5", []).
Proof. repeat split; reflexivity. Qed.

(** ** C7: index ranges over an Iterator *)


(** ** C8: binary operations *)


(** ** C9: Map capability lookups *)

(** C9: a key selector applied to a [value.Map] returns what [ValueForKey]
    returns for the key, whatever error [ValueForKey] reports for it
    ([vfk_err] is never consulted). *)
Theorem C9_map_error_discarded :
  forall resolve n k vfk vfk_err h,
    apply resolve (S n) (FKeySelector k) (VMapCap vfk vfk_err) h = ok (vfk k) h.
Proof. reflexivity. Qed.

(** ** C10: iterate-all over null *)

Lemma parse_iterate_all :
  filters 20 (init_pstate (tokens ".[]")) [] = inl [FSelector [FIdentity; FIterateAll]].
Proof. vm_compute. reflexivity. Qed.

(** C10: the stream [newStream] lifts from [nil] reports exhaustion on its
    first [Next], and [.[]] over null, unpacked, is the empty sequence,
    whatever the resolver and the heap. *)
Theorem C10_iterate_all_null_empty :
  forall resolve h,
    newStream VNull h
    = (inl (VStream (length h)), h ++ [OStream (mkStream 0 false None [])])
 /\ get_stream (h ++ [OStream (mkStream 0 false None [])]) (length h)
    = Some (mkStream 0 false None [])
 /\ fst (valueStream_Next (mkStream 0 false None [])) = None
 /\ fst (Filter_Apply resolve 20 ".[]" VNull h) = (VList [], None).
Proof.
  intros resolve h.
  split; [reflexivity|].
  split; [unfold get_stream; rewrite nth_error_app_length; reflexivity|].
  split; [reflexivity|].
  unfold Filter_Apply. rewrite parse_iterate_all.
  change (apply resolve 20 (FSelector [FIdentity; FIterateAll]) VNull h)
    with (ok (VStream (length h)) (h ++ [OStream (mkStream 0 false None [])])).
  cbv beta iota delta [ok].
  change (unpackValueStreams 20 (VStream (length h)) (h ++ [OStream (mkStream 0 false None [])]))
    with (applyToStream 19 (unpackValueStreams 19) (length h) []
            (h ++ [OStream (mkStream 0 false None [])])).
  unfold applyToStream, get_stream. rewrite nth_error_app_length. reflexivity.
Qed.

(** ** C6: key selection *)

Lemma vdepth_elem (x : value) (l : list value) :
  In x l -> (vdepth x <= fold_right (fun y acc => Nat.max (vdepth y) acc) 0%nat l)%nat.
Proof.
  induction l as [|y l IHl]; simpl; [tauto|].
  intros [-> | Hin]; [lia|]. specialize (IHl Hin). lia.
Qed.

(** C6: on raw data the key selector [.k] computes [spec_key_select]:
    the bound value or null on a mapping, the element-wise broadcast on an
    ordered sequence, null on a scalar or null; it never errors and leaves
    the heap untouched (given fuel beyond the nesting depth). *)
Theorem C6_key_selector_raw :
  forall resolve fuel k v h,
    raw v = true -> (vdepth v < fuel)%nat ->
    apply resolve fuel (FKeySelector k) v h = ok (spec_key_select k v) h.
Proof.
  intros resolve fuel k. induction fuel as [|n IH]; intros v h Hraw Hd; [lia|].
  destruct v; try discriminate Hraw; try reflexivity.
  simpl in Hraw, Hd.
  assert (Hall : forall x, In x l -> raw x = true /\ (vdepth x < n)%nat).
  { intros x Hin. split.
    - exact (proj1 (forallb_forall _ _) Hraw x Hin).
    - pose proof (vdepth_elem x l Hin). lia. }
  cbn [apply resolve_in].
  assert (Ht : traverse (apply resolve n (FKeySelector k)) l h
               = (inl (map (spec_key_select k) l), h)).
  { clear Hraw Hd. induction l as [|x l IHl]; [reflexivity|].
    simpl. rewrite (IH x h) by (apply Hall; left; reflexivity).
    unfold ok. rewrite IHl by (intros y Hy; apply Hall; right; exact Hy).
    reflexivity. }
  rewrite Ht. reflexivity.
Qed.

(** C6 witness: [.a] over [[{"a": "b"}, {"c": 1}, 7]]. *)
Lemma C6_key_selector_raw_witness :
  raw (VList [VStrMap [("a", VString "b")]; VStrMap [("c", VInt 1)]; VInt 7]) = true
  /\ (vdepth (VList [VStrMap [("a", VString "b")]; VStrMap [("c", VInt 1)]; VInt 7]) < 5)%nat
  /\ apply no_resolver 5 (FKeySelector "a")
       (VList [VStrMap [("a", VString "b")]; VStrMap [("c", VInt 1)]; VInt 7]) []
     = ok (VList [VString "b"; VNull; VNull]) [].
Proof.
  split; [reflexivity|]. split; [simpl; lia|].
  exact (C6_key_selector_raw no_resolver 5 "a"
           (VList [VStrMap [("a", VString "b")]; VStrMap [("c", VInt 1)]; VInt 7]) []
           eq_refl ltac:(simpl; lia)).
Defined.

(** ** C5: bracket disambiguation *)

Lemma last_cons_default (z d : Z) (l : list Z) :
  List.last (z :: l) d = List.last l z.
Proof.
  revert z d. induction l as [|y l IHl]; intros z d; [reflexivity|].
  change (List.last (y :: l) d = List.last (y :: l) z).
  rewrite (IHl y d), (IHl y z). reflexivity.
Qed.

(** The [parseSliceFilter] loop over a run of slice tokens: one token per
    step; the colon flag and the emptiness flag summarise the run; before a
    colon [r.start] is the last number read, after it [r.stop] is. *)
Lemma before_colon_none (pre : list token) :
  slice_has_colon pre = false -> before_colon pre = pre.
Proof.
  induction pre as [|t r IH]; [reflexivity|].
  unfold slice_has_colon. cbn [existsb]. unfold is_colon_tok in *. cbn [before_colon].
  unfold is_colon_tok. destruct (tokType t); try discriminate; intros H; rewrite IH by exact H; reflexivity.
Qed.

Lemma slice_prefix_bounds :
  forall pre n start stop hc em t rest lt,
    forallb is_slice_prefix_tok pre = true ->
    exists lt',
      parseSliceFilter (length pre + n) (mkPState (pre ++ t :: rest) None lt)
                       start stop hc em
      = parseSliceFilter n (mkPState (t :: rest) None lt')
          (if hc then start else List.last (slice_numbers (before_colon pre)) start)
          (if hc then List.last (slice_numbers pre) stop
           else List.last (slice_numbers (after_colon pre)) stop)
          (hc || slice_has_colon pre)
          (em && negb (slice_has_colon pre) && Nat.eqb (length (slice_numbers pre)) 0).
Proof.
  induction pre as [|x pre IH]; intros n start stop hc em t rest lt Hpre.
  - exists lt. simpl. rewrite orb_false_r, !andb_true_r. destruct hc; reflexivity.
  - simpl in Hpre. apply andb_true_iff in Hpre as [Hx Hpre].
    unfold is_slice_prefix_tok in Hx.
    cbn [length Nat.add app]. cbn [parseSliceFilter p_scan buf toks].
    change (slice_has_colon (x :: pre))
      with ((match tokType x with tColon => true | _ => false end) || slice_has_colon pre).
    cbn [slice_numbers before_colon after_colon]. unfold is_colon_tok.
    destruct (tokType x) eqn:Ex; try discriminate Hx.
    + destruct (ParseInt (tokText x)) as [z|] eqn:Ez; [|discriminate Hx].
      destruct hc.
      * destruct (IH n start z true false t rest x Hpre) as (l' & Hr).
        exists l'. rewrite Hr. cbn [length Nat.eqb orb].
        rewrite !andb_false_r. rewrite last_cons_default. reflexivity.
      * destruct (IH n z stop false false t rest x Hpre) as (l' & Hr).
        exists l'. rewrite Hr. cbn [length Nat.eqb orb].
        rewrite !andb_false_r. cbn [slice_numbers]. rewrite Ex, Ez.
        rewrite last_cons_default. reflexivity.
    + destruct (IH n start stop true false t rest x Hpre) as (l' & Hr).
      exists l'. rewrite Hr. cbn [orb negb andb]. rewrite !orb_true_r.
      cbn [negb]. rewrite !andb_false_r. destruct hc; reflexivity.
    + destruct (IH n start stop hc em t rest x Hpre) as (l' & Hr).
      exists l'. rewrite Hr. cbn [orb slice_numbers]. rewrite Ex. reflexivity.
Qed.

(** A successful [completeArrayMap] extends the list it was given. *)
Lemma completeArrayMap_prefix :
  forall fuel st am cursor f st',
    completeArrayMap fuel st am cursor = (f, None, st') ->
    exists l', f = FSlice (am ++ match cursor with Some c => [c] | None => [] end ++ l').
Proof.
  induction fuel as [|n IH]; intros st am cursor f st' H; [discriminate H|].
  cbn [completeArrayMap] in H.
  set (am' := match cursor with Some c => am ++ [c] | None => am end) in H.
  assert (Ham : am' = am ++ match cursor with Some c => [c] | None => [] end).
  { unfold am'. destruct cursor; [reflexivity|rewrite app_nil_r; reflexivity]. }
  destruct (p_scan st) as [t st1].
  destruct (tokType t);
    try (inversion H; subst; exists []; rewrite Ham, ?app_nil_r; reflexivity);
    try (destruct (IH _ _ _ _ _ H) as [l' ->]; exists l';
         rewrite Ham, <- ?app_assoc; reflexivity);
    (destruct (readOneFilter n (p_unscan st1)) as [[c [e|]] st2];
       cbn iota in H; [discriminate H|];
     destruct (IH _ _ _ _ _ H) as [l' ->]; exists (c :: l');
     rewrite Ham, <- ?app_assoc; reflexivity).
Qed.

(** C5 (counterexample): inside [[1:,2]] a comma after a colon does not
    start an array construction: [parseSliceFilter] fails. *)
Lemma C5_comma_after_colon_errors :
  fst (parseSliceFilter 20 (init_pstate (tokens "1:,2]")) 0 0 false true)
  = (FNil, Some (PErr "unexpected token")).
Proof. vm_compute. reflexivity. Qed.

Ltac destruct_result :=
  match goal with
  | |- match ?X with _ => _ end => destruct X as [[?f ?e] ?st]
  end.

(** C5 (amended): after a run of integers, colons and left brackets
    inside [[...]], the next token decides: on [] ] with no colon and one
    number [i], the index selector [i]; with nothing seen, iterate-all; with
    a colon, the index-range selector from the last number before the first
    colon to the last number after it (0 when there is none). On any other
    token (not a number, colon or bracket) after a colon, a parse error;
    with no colon, parsing continues as an array construction which, when
    it succeeds, is a list whose first element is the consumed number [i]
    when [i] is non-zero. *)
Theorem C5_bracket_disambiguation :
  forall fuel pre t rest lt,
    forallb is_slice_prefix_tok pre = true ->
    (length pre < fuel)%nat ->
    match parseSliceFilter fuel (mkPState (pre ++ t :: rest) None lt) 0 0 false true with
    | (f, e, _) =>
        (tokType t = tRightBracket ->
           (slice_has_colon pre = false -> forall i, slice_numbers pre = [i] ->
              f = FIndexSelector i /\ e = None)
           /\ (slice_has_colon pre = false -> slice_numbers pre = [] ->
              f = FIterateAll /\ e = None)
           /\ (slice_has_colon pre = true ->
              f = FIndexRange (List.last (slice_numbers (before_colon pre)) 0%Z)
                              (List.last (slice_numbers (after_colon pre)) 0%Z) false
              /\ e = None))
        /\ (is_other_tok t = true ->
           (slice_has_colon pre = true -> f = FNil /\ exists m, e = Some (PErr m))
           /\ (slice_has_colon pre = false -> e = None ->
                exists l, f = FSlice l
                  /\ (forall i, slice_numbers pre = [i] -> i <> 0 ->
                        exists l', l = FNumericLiteral (float_of_int i) :: l')))
    end.
Proof.
  intros fuel pre t rest lt Hpre Hlen.
  destruct (slice_prefix_bounds pre (fuel - length pre) 0 0 false true t rest lt Hpre)
    as (l' & Hr).
  replace fuel with (length pre + (fuel - length pre))%nat by lia.
  rewrite Hr. cbn [orb andb] in *.
  destruct (fuel - length pre)%nat as [|m] eqn:Em; [lia|].
  cbn [parseSliceFilter p_scan buf toks].
  unfold is_other_tok.
  destruct (slice_has_colon pre) eqn:Hc.
  - destruct (tokType t) eqn:Et;
      try (destruct_result; split; intros Hx; discriminate Hx);
      simpl; (split; [intros Hx; try discriminate Hx|intros Hx; try discriminate Hx]);
      try (refine (conj _ (conj _ _)); intros; try discriminate; split; reflexivity);
      try (split; [intros _; split; [reflexivity|eexists; reflexivity]
                  |intros Hx'; discriminate Hx']).
  - rewrite before_colon_none by exact Hc.
    destruct (tokType t) eqn:Et;
      try (destruct_result; split; intros Hx; discriminate Hx).
    all: lazymatch goal with
    | _ : tokType _ = tRightBracket |- _ =>
        destruct (slice_numbers pre) as [|i0 l0] eqn:Hn; simpl;
        split; try (intros Hx; discriminate Hx); intros _;
        refine (conj _ (conj _ _)); intros; try discriminate;
        [ split; reflexivity
        | match goal with Hi : _ :: _ = [_] |- _ => inversion Hi; subst end;
          simpl; split; reflexivity ]
    | |- _ =>
        cbn iota;
        destruct (completeArrayMap m _ _ None) as [[f e] st] eqn:Hcam; cbn iota;
        split; [intros Hx; discriminate Hx|]; intros _;
        split; [intros Hx; discriminate Hx|]; intros _ He; subst e;
        destruct (completeArrayMap_prefix _ _ _ _ _ _ Hcam) as [l1 ->];
        eexists; split; [reflexivity|];
        intros i Hi Hi0; rewrite Hi; cbn [List.last];
        rewrite (proj2 (Z.eqb_neq i 0) Hi0); eexists; reflexivity
    end.
Qed.

(** C5 witness: the runs [3] then [] ] and [2] then [,]. *)
Lemma C5_bracket_disambiguation_witness :
  forallb is_slice_prefix_tok [mkToken tNumber "3"] = true
  /\ (length [mkToken tNumber "3"] < 20)%nat
  /\ match parseSliceFilter 20
             (mkPState ([mkToken tNumber "3"] ++ mkToken tComma EmptyString
                          :: [mkToken tNumber "4"; mkToken tRightBracket EmptyString])
                       None (newTok tLeftBracket)) 0 0 false true with
     | (f, e, _) =>
         (tokType (mkToken tComma EmptyString) = tRightBracket ->
            (slice_has_colon [mkToken tNumber "3"] = false -> forall i,
               slice_numbers [mkToken tNumber "3"] = [i] -> f = FIndexSelector i /\ e = None)
            /\ (slice_has_colon [mkToken tNumber "3"] = false ->
                slice_numbers [mkToken tNumber "3"] = [] -> f = FIterateAll /\ e = None)
            /\ (slice_has_colon [mkToken tNumber "3"] = true ->
                f = FIndexRange (List.last (slice_numbers (before_colon [mkToken tNumber "3"])) 0)
                                (List.last (slice_numbers (after_colon [mkToken tNumber "3"])) 0) false
                /\ e = None))
         /\ (is_other_tok (mkToken tComma EmptyString) = true ->
            (slice_has_colon [mkToken tNumber "3"] = true ->
               f = FNil /\ exists m, e = Some (PErr m))
            /\ (slice_has_colon [mkToken tNumber "3"] = false -> e = None ->
                 exists l, f = FSlice l
                   /\ (forall i, slice_numbers [mkToken tNumber "3"] = [i] -> i <> 0 ->
                         exists l', l = FNumericLiteral (float_of_int i) :: l')))
     end.
Proof.
  split; [reflexivity|]. split; [simpl; lia|].
  exact (C5_bracket_disambiguation 20 [mkToken tNumber "3"] (mkToken tComma EmptyString)
           [mkToken tNumber "4"; mkToken tRightBracket EmptyString] (newTok tLeftBracket)
           eq_refl ltac:(simpl; lia)).
Defined.

(** ** Iterators and value streams *)

Section IteratorStream.
Local Open Scope Z_scope.

Lemma iterator_Next_n_state (l : list value) (j k : nat) :
  (j <= length l)%nat ->
  iterator_Next_n (length l - j + k) (mkIterator (Z.of_nat j - 1) l)
  = (repeat true (length l - j) ++ repeat false k,
     mkIterator (Z.of_nat (length l) - 1) l).
Proof.
  intros Hj. remember (length l - j)%nat as d eqn:Ed.
  revert j Hj Ed. induction d as [|d IH]; intros j Hj Ed.
  - assert (j = length l) by lia. subst j. simpl.
    induction k as [|k IHk]; [reflexivity|].
    simpl. unfold iterator_Next at 1. simpl.
    rewrite (proj2 (Z.leb_le _ _)) by lia. rewrite IHk. reflexivity.
  - simpl. unfold iterator_Next at 1. simpl.
    rewrite (proj2 (Z.leb_gt _ _)) by lia.
    replace (Z.of_nat j - 1 + 1) with (Z.of_nat (S j) - 1) by lia.
    rewrite (IH (S j)) by lia. reflexivity.
Qed.

Lemma iter_count_state (l : list value) : forall n j c,
  (j <= length l)%nat -> (length l - j < n)%nat ->
  iter_count n (mkIterator (Z.of_nat j - 1) l) c
  = Some (c + Z.of_nat (length l - j), mkIterator (Z.of_nat (length l) - 1) l).
Proof.
  induction n as [|n IH]; intros j c Hj Hn; [lia|].
  simpl. unfold iterator_Next. simpl.
  destruct (Z.leb_spec (Z.of_nat (length l) - 1) (Z.of_nat j - 1)).
  - assert (j = length l) by lia. subst j. rewrite Nat.sub_diag. simpl.
    rewrite Z.add_0_r. reflexivity.
  - replace (Z.of_nat j - 1 + 1) with (Z.of_nat (S j) - 1) by lia.
    rewrite (IH (S j)) by lia. f_equal. f_equal. lia.
Qed.

Lemma iter_index_state (l : list value) : forall n j target,
  (j <= length l)%nat -> (length l - j < n)%nat ->
  exists it',
  iter_index n (mkIterator (Z.of_nat j - 1) l) target (Z.of_nat j) VNull
  = Some (inl (if (Z.of_nat j <=? target) && (target <? Z.of_nat (length l))
               then nth (Z.to_nat target) l VNull else VNull), it').
Proof.
  induction n as [|n IH]; intros j target Hj Hn; [lia|].
  simpl. unfold iterator_Next. simpl.
  destruct (Z.leb_spec (Z.of_nat (length l) - 1) (Z.of_nat j - 1)).
  - eexists. f_equal. f_equal. f_equal.
    destruct (Z.leb_spec (Z.of_nat j) target); destruct (Z.ltb_spec target (Z.of_nat (length l)));
      simpl; try reflexivity; lia.
  - replace (Z.of_nat j - 1 + 1) with (Z.of_nat (S j) - 1) by lia.
    destruct (Z.eqb_spec (Z.of_nat j) target).
    + unfold iterator_Scan. cbn [it_i it_values].
      rewrite (proj2 (Z.leb_le 0 _)) by lia.
      replace (Z.to_nat (Z.of_nat (S j) - 1)) with j by lia.
      destruct (nth_error l j) eqn:E.
      * eexists. rewrite (proj2 (Z.leb_le _ _)) by lia.
        rewrite (proj2 (Z.ltb_lt _ _)) by lia. simpl.
        subst target. rewrite Nat2Z.id. rewrite (nth_error_nth _ _ _ E). reflexivity.
      * apply nth_error_None in E. lia.
    + replace (Z.of_nat j + 1) with (Z.of_nat (S j)) by lia.
      destruct (IH (S j) target) as [it' ->]; [lia|lia|].
      exists it'. f_equal. f_equal. f_equal.
      destruct (Z.leb_spec (Z.of_nat (S j)) target); destruct (Z.leb_spec (Z.of_nat j) target);
        simpl; try reflexivity; lia.
Qed.

Lemma iter_range_state (l : list value) : forall n j offset limit res,
  (j <= length l)%nat -> (length l - j < n)%nat ->
  exists it',
  iter_range n (mkIterator (Z.of_nat j - 1) l) offset limit res
  = Some (inl (res ++ range_spec (skipn j l) offset limit), it').
Proof.
  induction n as [|n IH]; intros j offset limit res Hj Hn; [lia|].
  simpl. unfold iterator_Next. simpl.
  destruct (Z.leb_spec (Z.of_nat (length l) - 1) (Z.of_nat j - 1)).
  - assert (j = length l) by lia. subst j. rewrite skipn_all.
    eexists. unfold range_spec. rewrite skipn_nil.
    destruct (0 <? limit); rewrite ?firstn_nil, app_nil_r; reflexivity.
  - replace (Z.of_nat j - 1 + 1) with (Z.of_nat (S j) - 1) by lia.
    destruct (nth_error l j) as [x|] eqn:E; [|apply nth_error_None in E; lia].
    assert (Hs : skipn j l = x :: skipn (S j) l).
    { clear -E. revert j E. induction l as [|y l IHl]; intros [|j] E; try discriminate.
      - inversion E; reflexivity.
      - simpl in E |- *. apply IHl. exact E. }
    rewrite Hs.
    destruct (Z.ltb_spec 0 (offset - 1)).
    + destruct (IH (S j) (offset - 1) limit res) as [it' ->]; [lia|lia|].
      exists it'. f_equal. f_equal. f_equal. f_equal.
      unfold range_spec.
      replace (Z.to_nat (offset - 1)) with (S (Z.to_nat (offset - 1 - 1))) by lia.
      reflexivity.
    + unfold iterator_Scan. cbn [it_i it_values].
      rewrite (proj2 (Z.leb_le 0 _)) by lia.
      replace (Z.to_nat (Z.of_nat (S j) - 1)) with j by lia. rewrite E.
      assert (Hr : forall rest, range_spec (x :: rest) offset limit
                   = if 0 <? limit then x :: firstn (Z.to_nat (limit - 1)) rest
                     else x :: rest).
      { intros rest. unfold range_spec.
        replace (Z.to_nat (offset - 1)) with O by lia. simpl.
        destruct (Z.ltb_spec 0 limit); [|reflexivity].
        replace (Z.to_nat limit) with (S (Z.to_nat (limit - 1))) by lia. reflexivity. }
      rewrite Hr.
      destruct (Z.eqb_spec (limit - 1) 0).
      * eexists. rewrite (proj2 (Z.ltb_lt 0 limit)) by lia.
        replace (Z.to_nat (limit - 1)) with O by lia. simpl. reflexivity.
      * destruct (IH (S j) (offset - 1) (limit - 1) (res ++ [x])) as [it' ->]; [lia|lia|].
        exists it'. rewrite <- app_assoc. simpl. f_equal. f_equal. f_equal. f_equal. f_equal.
        unfold range_spec.
        replace (Z.to_nat (offset - 1 - 1)) with O by lia. simpl.
        destruct (Z.ltb_spec 0 limit); destruct (Z.ltb_spec 0 (limit - 1)); try lia; reflexivity.
Qed.

Lemma nth_error_lt {T} (h : list T) (p : nat) (x : T) :
  nth_error h p = Some x -> (p < length h)%nat.
Proof. intros H. apply nth_error_Some. rewrite H. discriminate. Qed.

Lemma upd_length (h : heap) (p : nat) (o : obj) :
  (p < length h)%nat -> length (upd h p o) = length h.
Proof.
  intros Hp. unfold upd. rewrite length_app, firstn_length_le by lia.
  cbn [length]. rewrite length_skipn. lia.
Qed.

Lemma nth_error_upd_same (h : heap) (p : nat) (o : obj) :
  (p < length h)%nat -> nth_error (upd h p o) p = Some o.
Proof.
  intros Hp. unfold upd. rewrite nth_error_app2 by (rewrite firstn_length_le; lia).
  rewrite firstn_length_le by lia. rewrite Nat.sub_diag. reflexivity.
Qed.

Lemma upd_upd (h : heap) (p : nat) (a b : obj) :
  (p < length h)%nat -> upd (upd h p a) p b = upd h p b.
Proof.
  intros Hp. unfold upd.
  assert (Hf : length (firstn p h) = p) by (apply firstn_length_le; lia).
  rewrite firstn_app, Hf, Nat.sub_diag, firstn_O, app_nil_r, firstn_all2 by lia.
  rewrite skipn_app, Hf. rewrite skipn_all2 by lia.
  replace (S p - p)%nat with 1%nat by lia. reflexivity.
Qed.

Lemma mkIterator_fresh (l : list value) : NewIterator l = mkIterator (Z.of_nat 0 - 1) l.
Proof. reflexivity. Qed.

(** [length] on an iterator whose cursor sits before position [j] counts the remaining [length l - j] elements and leaves the iterator exhausted, so that a further [Next] answers false. *)
Theorem length_of_iterator :
  forall resolve n l j h p,
    get_iter h p = Some (mkIterator (Z.of_nat j - 1) l) ->
    (j <= length l)%nat -> (length l - j < n)%nat ->
    apply resolve (S n) FLength (VIter p) h
    = ok (VInt (Z.of_nat (length l - j)))
         (upd h p (OIter (mkIterator (Z.of_nat (length l) - 1) l)))
    /\ fst (iterator_Next (mkIterator (Z.of_nat (length l) - 1) l)) = false.
Proof.
  intros resolve n l j h p Hg Hj Hn. split.
  - cbn [apply]. rewrite Hg. rewrite (iter_count_state l n j 0) by assumption.
    reflexivity.
  - unfold iterator_Next. simpl. rewrite Z.leb_refl. reflexivity.
Qed.

(** An index selector on a fresh iterator returns the element at that index when it lies in [0, length l), and null otherwise, with no error. *)
Theorem index_of_iterator :
  forall resolve n l i h p,
    get_iter h p = Some (NewIterator l) -> (length l < n)%nat ->
    fst (apply resolve (S n) (FIndexSelector i) (VIter p) h)
    = (if (0 <=? i) && (i <? Z.of_nat (length l))
       then nth (Z.to_nat i) l VNull else VNull, None).
Proof.
  intros resolve n l i h p Hg Hn.
  cbn [apply resolve_in]. rewrite Hg. unfold NewIterator.
  destruct (iter_index_state l n 0 i) as [it' E]; [lia|lia|].
  change (Z.of_nat 0 - 1) with (-1) in E. change (Z.of_nat 0) with 0 in E.
  rewrite E. reflexivity.
Qed.

(** A range selector on a fresh iterator collects the elements as the offset and limit countdown of the code prescribes ([range_spec]), with no error. *)
Theorem range_of_iterator :
  forall resolve n l start stop all h p,
    get_iter h p = Some (NewIterator l) -> (length l < n)%nat ->
    fst (apply resolve (S n) (FIndexRange start stop all) (VIter p) h)
    = (VList (range_spec l start stop), None).
Proof.
  intros resolve n l start stop all h p Hg Hn.
  cbn [apply resolve_in]. rewrite Hg. unfold NewIterator.
  destruct (iter_range_state l n 0 start stop []) as [it' E]; [lia|lia|].
  change (Z.of_nat 0 - 1) with (-1) in E. rewrite E. reflexivity.
Qed.

Lemma iterator_Next_n_prefix (l : list value) : forall m j,
  (j + m <= length l)%nat ->
  iterator_Next_n m (mkIterator (Z.of_nat j - 1) l)
  = (repeat true m, mkIterator (Z.of_nat (j + m) - 1) l).
Proof.
  induction m as [|m IH]; intros j Hm.
  - rewrite Nat.add_0_r. reflexivity.
  - simpl. unfold iterator_Next at 1. cbn [it_i it_values].
    rewrite (proj2 (Z.leb_gt _ _)) by lia.
    replace (Z.of_nat j - 1 + 1) with (Z.of_nat (S j) - 1) by lia.
    rewrite (IH (S j)) by lia. do 3 f_equal. lia.
Qed.

(** A fresh iterator over [l] answers [Next] true exactly [length l] times and false afterwards; [Scan] before any [Next] is out of range, and after the [j+1]-th [Next] it yields the [j]-th element while [Key] is [j]. *)
Theorem iterator_next_scan_key :
  forall l k,
    fst (iterator_Next_n (length l + k) (NewIterator l))
      = repeat true (length l) ++ repeat false k
    /\ iterator_Scan (NewIterator l) = inr out_of_range
    /\ (forall j, (j < length l)%nat ->
          let it := snd (iterator_Next_n (S j) (NewIterator l)) in
          iterator_Scan it = inl (nth j l VNull) /\ iterator_Key it = VInt (Z.of_nat j)).
Proof.
  intros l k. rewrite mkIterator_fresh. split; [|split].
  - rewrite <- (Nat.sub_0_r (length l)) at 1 2.
    rewrite iterator_Next_n_state by lia. reflexivity.
  - reflexivity.
  - intros j Hj.
    rewrite (iterator_Next_n_prefix l (S j) 0) by lia.
    cbn [snd]. unfold iterator_Scan, iterator_Key. cbn [it_i it_values].
    rewrite (proj2 (Z.leb_le 0 _)) by lia.
    replace (Z.to_nat (Z.of_nat (0 + S j) - 1)) with j by lia.
    destruct (nth_error l j) eqn:E; [|apply nth_error_None in E; lia].
    rewrite (nth_error_nth _ _ _ E). split; [reflexivity|]. f_equal. lia.
Qed.

Lemma stream_pulls (vals : list value) : forall d i k,
  (i + d = length vals)%nat ->
  valueStream_Next_n (d + k) (mkStream i false None vals)
  = (map Some (skipn i vals) ++ repeat None k, mkStream (length vals) false None vals).
Proof.
  induction d as [|d IH]; intros i k Hd.
  - rewrite Nat.add_0_r in Hd. subst i. rewrite skipn_all. simpl.
    induction k as [|k IHk]; [reflexivity|].
    simpl. unfold valueStream_Next at 1. cbn [vs_val vs_i vs_vals vs_done].
    rewrite Nat.eqb_refl. simpl. rewrite IHk. reflexivity.
  - simpl. unfold valueStream_Next at 1. cbn [vs_val vs_i vs_vals vs_done].
    rewrite (proj2 (Nat.eqb_neq _ _)) by lia. simpl.
    destruct (nth_error vals i) as [x|] eqn:E; [|apply nth_error_None in E; lia].
    rewrite (IH (S i) k) by lia.
    assert (Hs : skipn i vals = x :: skipn (S i) vals).
    { clear -E. revert i E. induction vals as [|y l IHl]; intros [|i] E; try discriminate.
      - inversion E; reflexivity.
      - simpl in E |- *. apply IHl. exact E. }
    rewrite Hs. reflexivity.
Qed.

(** [newStream] on a stream, a list, null, a scalar or a mapping allocates one new stream object that delivers [stream_elems v] in order (the elements of a list, nothing for null, the value itself otherwise) and then only end-of-stream; on any other value it fails with an unrecognised-type error and leaves the heap unchanged. *)
Theorem newStream_delivers :
  forall v h,
    match stream_elems v with
    | Some es =>
        exists s, newStream v h = (inl (VStream (length h)), h ++ [OStream s])
          /\ forall k, fst (valueStream_Next_n (length es + k) s)
                       = map Some es ++ repeat None k
    | None => newStream v h = (inr EUnrecognizedType, h)
    end.
Proof.
  intros v h.
  assert (Hval : forall k, fst (valueStream_Next_n (1 + k) (mkStream 0 false (Some v) []))
                           = map Some [v] ++ repeat None k).
  { intros k. pose proof (stream_pulls [] 0 0 k eq_refl) as E. simpl in E.
    change (fst (let (os, s2) := valueStream_Next_n k (mkStream 0 false None []) in
                 (Some v :: os, s2)) = map Some [v] ++ repeat None k).
    rewrite E. reflexivity. }
  destruct v; simpl; try reflexivity;
    try (eexists; split; [reflexivity|exact Hval]).
  - eexists. split; [reflexivity|]. intros k.
    exact (f_equal fst (stream_pulls [] 0 0 k eq_refl)).
  - eexists. split; [reflexivity|]. intros k.
    rewrite (stream_pulls l (length l) 0 k eq_refl). reflexivity.
Qed.

(** After [Close] a stream delivers at most the value it had already pulled, and end-of-stream from then on. *)
Theorem valueStream_Close_stops :
  forall s k,
    fst (valueStream_Next_n (S k) (valueStream_Close s))
    = match vs_val s with
      | Some v => Some v :: repeat None k
      | None => repeat None (S k)
      end.
Proof.
  intros [i d val vals] k. unfold valueStream_Close. cbn [vs_i vs_done vs_val vs_vals].
  assert (Hdone : forall n, fst (valueStream_Next_n n (mkStream i true None vals)) = repeat None n).
  { intros n. induction n as [|n IHn]; [reflexivity|].
    simpl. unfold valueStream_Next at 1. cbn [vs_val vs_i vs_vals vs_done].
    rewrite orb_true_r. simpl. 
    destruct (valueStream_Next_n n _) as [os s2] eqn:E. simpl in IHn |- *. rewrite IHn. reflexivity. }
  destruct val as [v|]; simpl.
  - pose proof (Hdone k) as H.
    destruct (valueStream_Next_n k _) as [os s2]. simpl in H |- *. rewrite H. reflexivity.
  - exact (Hdone (S k)).
Qed.

(** [applyToStream] with a function that neither fails nor touches the heap. *)
Lemma applyToStream_pure (G : value -> value) (g : value -> heap -> outcome) :
  forall n vals i acc h p,
    (forall x h', In x (skipn i vals) -> g x h' = ok (G x) h') ->
    get_stream h p = Some (mkStream i false None vals) ->
    (i <= length vals)%nat -> (length vals - i < n)%nat ->
    applyToStream n g p acc h
    = ok (VList (acc ++ map G (skipn i vals)))
         (upd h p (OStream (mkStream (length vals) false None vals))).
Proof.
  induction n as [|n IH]; intros vals i acc h p Hg Hs Hi Hn; [lia|].
  cbn [applyToStream]. rewrite Hs.
  assert (Hp : (p < length h)%nat).
  { unfold get_stream in Hs. destruct (nth_error h p) eqn:E; [|discriminate].
    exact (nth_error_lt _ _ _ E). }
  unfold valueStream_Next. cbn [vs_val vs_i vs_vals vs_done].
  destruct (Nat.eqb_spec i (length vals)).
  - subst i. simpl. rewrite skipn_all, app_nil_r. reflexivity.
  - simpl. destruct (nth_error vals i) as [x|] eqn:E; [|apply nth_error_None in E; lia].
    assert (Hsk : skipn i vals = x :: skipn (S i) vals).
    { clear -E. revert i E. induction vals as [|y l IHl]; intros [|i] E; try discriminate.
      - inversion E; reflexivity.
      - simpl in E |- *. apply IHl. exact E. }
    rewrite Hg by (rewrite Hsk; left; reflexivity). unfold ok at 1.
    rewrite (IH vals (S i)).
    + rewrite upd_upd by exact Hp. rewrite Hsk, <- app_assoc. reflexivity.
    + intros y h' Hy. apply Hg. rewrite Hsk. right. exact Hy.
    + unfold get_stream. rewrite nth_error_upd_same by exact Hp. reflexivity.
    + lia.
    + lia.
Qed.

End IteratorStream.

(** ** Key paths, the lexer and whole filters *)

Section Filters.
Local Open Scope nat_scope.
Local Open Scope list_scope.

Lemma list_ascii_of_string_append (s t : string) :
  list_ascii_of_string (String.append s t) = list_ascii_of_string s ++ list_ascii_of_string t.
Proof. induction s as [|c s IH]; simpl; [reflexivity|]. rewrite IH. reflexivity. Qed.

Ltac ascii_neq c H :=
  match goal with
  | |- context [Ascii.eqb c ?x] =>
      let E := fresh in
      destruct (Ascii.eqb c x) eqn:E;
      [apply Ascii.eqb_eq in E; subst c; vm_compute in H; discriminate H|]
  end.

Lemma letter_Scan (c : ascii) (r : list ascii) :
  is_letter c = true -> Scan (c :: r) = scanLiteral r [c].
Proof.
  intros H. cbn [Scan]. unfold NUL.
  repeat ascii_neq c H.
  cbn [orb].
  destruct (is_digit c) eqn:E.
  - exfalso. unfold is_letter, is_digit in *.
    destruct (Ascii.eqb_spec c "_") as [->|Hn]; [vm_compute in E; discriminate E|].
    rewrite orb_false_r in H.
    apply andb_true_iff in E as [E1 E2]. apply Nat.leb_le in E1, E2.
    apply orb_true_iff in H as [H|H]; apply andb_true_iff in H as [Ha Hb];
      apply Nat.leb_le in Ha, Hb; lia.
  - reflexivity.
Qed.

Lemma key_char_literal (c : ascii) : is_key_char c = true -> literalMatch c = true.
Proof.
  intros H. destruct c as [[] [] [] [] [] [] [] []]; vm_compute in H |- *;
    first [reflexivity | discriminate H].
Qed.

Lemma key_char_not_space (c : ascii) : is_key_char c = true -> is_space c = false.
Proof.
  intros H. destruct c as [[] [] [] [] [] [] [] []]; vm_compute in H |- *;
    first [reflexivity | discriminate H].
Qed.

Lemma letter_key_char (c : ascii) : is_letter c = true -> is_key_char c = true.
Proof. intros H. unfold is_key_char. rewrite H. reflexivity. Qed.

Lemma letter_not_numeric (c : ascii) : is_letter c = true -> isNumericByte c = false.
Proof.
  intros H. destruct c as [[] [] [] [] [] [] [] []]; vm_compute in H |- *;
    first [reflexivity | discriminate H].
Qed.

Lemma scanLiteral_keychars (cs r acc : list ascii) :
  forallb is_key_char cs = true -> scanLiteral (cs ++ r) acc = scanLiteral r (acc ++ cs).
Proof.
  revert acc. induction cs as [|c cs IH]; intros acc H.
  - rewrite app_nil_r. reflexivity.
  - simpl in H. apply andb_true_iff in H as [Hc Hcs].
    simpl. rewrite (key_char_literal c Hc). rewrite IH by exact Hcs.
    rewrite <- app_assoc. reflexivity.
Qed.

Lemma scanLiteral_stop (r acc : list ascii) :
  stops_literal r = true -> scanLiteral r acc = (mkToken tText (TrimSpace acc), r).
Proof.
  destruct r as [|c r]; [reflexivity|]. simpl. intros H.
  destruct (literalMatch c); [discriminate H|reflexivity].
Qed.

Lemma trim_left_nospace (l : list ascii) :
  forallb (fun c => negb (is_space c)) l = true -> trim_left l = l.
Proof.
  destruct l as [|c l]; [reflexivity|]. simpl. intros H.
  apply andb_true_iff in H as [H _]. destruct (is_space c); [discriminate H|reflexivity].
Qed.

Lemma TrimSpace_nospace (l : list ascii) :
  forallb (fun c => negb (is_space c)) l = true -> TrimSpace l = string_of_list_ascii l.
Proof.
  intros H. unfold TrimSpace. rewrite (trim_left_nospace l H).
  rewrite trim_left_nospace.
  - rewrite rev_involutive. reflexivity.
  - apply forallb_forall. intros x Hx. apply in_rev in Hx.
    exact (proj1 (forallb_forall _ _) H x Hx).
Qed.

Lemma Scan_key (k : string) (r : list ascii) :
  is_key k = true -> stops_literal r = true ->
  Scan (list_ascii_of_string k ++ r) = (mkToken tText k, r).
Proof.
  unfold is_key. intros Hk Hr.
  destruct (list_ascii_of_string k) as [|c cs] eqn:Ek; [discriminate Hk|].
  apply andb_true_iff in Hk as [Hc Hcs].
  cbn [app]. rewrite (letter_Scan c _ Hc).
  rewrite scanLiteral_keychars by exact Hcs. rewrite scanLiteral_stop by exact Hr.
  rewrite TrimSpace_nospace.
  - change ([c] ++ cs) with (c :: cs). rewrite <- Ek, string_of_list_ascii_of_string. reflexivity.
  - simpl. rewrite (key_char_not_space c (letter_key_char c Hc)). simpl.
    apply forallb_forall. intros x Hx.
    rewrite (key_char_not_space x (proj1 (forallb_forall _ _) Hcs x Hx)). reflexivity.
Qed.

Lemma Scan_dot (r : list ascii) :
  peek_numeric r = false -> Scan ("."%char :: r) = (newTok tDot, r).
Proof. intros H. simpl. rewrite H. reflexivity. Qed.

Lemma lex_dotted (ks : list string) (rest : list ascii) (n : nat) :
  forallb is_key ks = true -> stops_literal rest = true ->
  lex (2 * length ks + n) (list_ascii_of_string (dotted ks) ++ rest)
  = dotted_tokens ks ++ lex n rest.
Proof.
  intros Hks Hr. induction ks as [|k ks IH]; [reflexivity|].
  simpl in Hks. apply andb_true_iff in Hks as [Hk Hks].
  replace (2 * length (k :: ks) + n)%nat with (S (S (2 * length ks + n))) by (simpl; lia).
  cbn [dotted list_ascii_of_string app lex].
  assert (Hpk : peek_numeric (list_ascii_of_string k ++ list_ascii_of_string (dotted ks) ++ rest)
                = false).
  { unfold is_key in Hk. destruct (list_ascii_of_string k) as [|c cs]; [discriminate Hk|].
    apply andb_true_iff in Hk as [Hc _]. simpl. exact (letter_not_numeric c Hc). }
  rewrite list_ascii_of_string_append, <- app_assoc, (Scan_dot _ Hpk).
  cbn [newTok tokType].
  rewrite Scan_key by (exact Hk ||
    (destruct ks; [exact Hr|reflexivity])).
  cbn [tokType]. rewrite IH by exact Hks. reflexivity.
Qed.

Lemma readSelector_dotted (ks : list string) : forall n rest lt sel,
  exists lt',
  readSelector (2 * length ks + n) (mkPState (dotted_tokens ks ++ rest) None lt) sel
  = readSelector n (mkPState rest None lt') (sel ++ key_sels ks).
Proof.
  induction ks as [|k ks IH]; intros n rest lt sel.
  - exists lt. rewrite app_nil_r. reflexivity.
  - replace (2 * length (k :: ks) + n)%nat with (S (S (2 * length ks + n))) by (simpl; lia).
    destruct (IH n rest (mkToken tText k) (sel ++ [FIdentity; FKeySelector k])) as [lt' E].
    exists lt'.
    change (dotted_tokens (k :: ks)) with (newTok tDot :: mkToken tText k :: dotted_tokens ks).
    cbn [readSelector app p_scan buf toks tokType newTok tokText].
    rewrite <- app_assoc. cbn [app]. rewrite E.
    rewrite <- app_assoc. reflexivity.
Qed.

Lemma filters_step (n : nat) (st : pstate) (fs : list filter) :
  filters (S n) st fs
  = match readFilter n st FNil [] with
    | (f, e, st') =>
        let fs' := match f with FNil => fs | _ => fs ++ [f] end in
        match e with
        | None => filters n st' fs'
        | Some PEOF => inl fs'
        | Some e => inr e
        end
    end.
Proof. reflexivity. Qed.

Lemma readFilter_dot_text (c : nat) (k : string) (t : list token) (lt : token) :
  readFilter (S (S (S c))) (mkPState (newTok tDot :: mkToken tText k :: t) None lt) FNil []
  = match readSelector c (mkPState t None (mkToken tText k)) [FIdentity; FKeySelector k] with
    | (f', Some e, st2) => (f', Some e, st2)
    | (f', None, st2) => readFilter (S (S c)) st2 f' []
    end.
Proof. reflexivity. Qed.

Lemma filters_dotted (ks : list string) (fuel : nat) :
  (2 * length ks + 6 <= fuel)%nat ->
  filters fuel (init_pstate (dotted_tokens ks ++ [newTok tEOF])) []
  = inl (match ks with [] => [] | _ => [FSelector (key_sels ks)] end).
Proof.
  intros Hf. destruct ks as [|k ks].
  - destruct fuel as [|[|f]]; [lia|lia|]. reflexivity.
  - replace fuel with (S (S (S (S (2 * length ks + S (fuel - 5 - 2 * length ks))))))
      by (simpl in Hf; lia).
    rewrite filters_step.
    change (dotted_tokens (k :: ks) ++ [newTok tEOF])
      with (newTok tDot :: mkToken tText k :: (dotted_tokens ks ++ [newTok tEOF])).
    unfold init_pstate. rewrite readFilter_dot_text.
    destruct (readSelector_dotted ks (S (fuel - 5 - 2 * length ks)) [newTok tEOF]
                (mkToken tText k) [FIdentity; FKeySelector k]) as [lt' E].
    rewrite E. reflexivity.
Qed.

Lemma fold_max_in {T} (f : T -> nat) (x : T) (l : list T) :
  In x l -> (f x <= fold_right (fun y acc => Nat.max (f y) acc) 0%nat l)%nat.
Proof.
  induction l as [|y l IHl]; simpl; [tauto|].
  intros [-> | Hin]; [lia|]. specialize (IHl Hin). lia.
Qed.

Lemma fold_max_le {T} (f : T -> nat) (n : nat) (l : list T) :
  (forall x, In x l -> (f x <= n)%nat) ->
  (fold_right (fun y acc => Nat.max (f y) acc) 0%nat l <= n)%nat.
Proof.
  induction l as [|y l IHl]; simpl; intros H; [lia|].
  pose proof (H y (or_introl eq_refl)) as Hy. specialize (IHl (fun x Hx => H x (or_intror Hx))).
  lia.
Qed.

Lemma str_lookup_cases (k : string) (m : list (string * value)) :
  str_lookup k m = VNull \/ In (k, str_lookup k m) m.
Proof.
  induction m as [|[k' x] m IH]; simpl; [left; reflexivity|].
  destruct (String.eqb_spec k k') as [<-|_].
  - right. left. reflexivity.
  - destruct IH as [IH|IH]; [left; exact IH|right; right; exact IH].
Qed.

Lemma iface_lookup_cases (k : string) (m : list (value * value)) :
  iface_lookup k m = VNull \/ exists key, In (key, iface_lookup k m) m.
Proof.
  induction m as [|[key x] m IH]; simpl; [left; reflexivity|].
  assert (Hr : iface_lookup k m = VNull \/ exists key0, In (key0, iface_lookup k m) ((key, x) :: m)).
  { destruct IH as [IH|[key0 IH]]; [left; exact IH|right; exists key0; right; exact IH]. }
  destruct key; try exact Hr.
  destruct (String.eqb_spec k s) as [<-|_]; [|exact Hr].
  right. exists (VString k). left. reflexivity.
Qed.

Lemma deep_raw_raw : forall n v, (vdeep v < n)%nat -> deep_raw v = true -> raw v = true.
Proof.
  induction n as [|n IH]; intros v Hn H; [lia|].
  destruct v; try reflexivity; try discriminate H.
  simpl in H |- *. apply forallb_forall. intros x Hx.
  apply (IH x); [|exact (proj1 (forallb_forall _ _) H x Hx)].
  simpl in Hn. pose proof (fold_max_in vdeep x l Hx). lia.
Qed.

Lemma vdepth_le_vdeep : forall n v, (vdeep v < n)%nat -> (vdepth v <= vdeep v)%nat.
Proof.
  induction n as [|n IH]; intros v Hn; [lia|].
  destruct v; simpl; try lia.
  apply le_n_S. apply fold_max_le. intros x Hx.
  pose proof (fold_max_in vdeep x l Hx). simpl in Hn.
  specialize (IH x ltac:(lia)). lia.
Qed.

Lemma key_select_deep (k : string) : forall n v, (vdeep v < n)%nat -> deep_raw v = true ->
  deep_raw (spec_key_select k v) = true /\ (vdeep (spec_key_select k v) <= vdeep v)%nat.
Proof.
  induction n as [|n IH]; intros v Hn H; [lia|].
  destruct v; try discriminate H; try (split; [reflexivity|simpl; lia]).
  - (* list *)
    simpl in H, Hn |- *.
    assert (Hx : forall x, In x l ->
              deep_raw (spec_key_select k x) = true /\ (vdeep (spec_key_select k x) <= vdeep x)%nat).
    { intros x Hin. apply IH; [pose proof (fold_max_in vdeep x l Hin); lia|].
      exact (proj1 (forallb_forall _ _) H x Hin). }
    split.
    + apply forallb_forall. intros y Hy. apply in_map_iff in Hy as [x [<- Hin]].
      exact (proj1 (Hx x Hin)).
    + apply le_n_S. apply fold_max_le. intros y Hy. apply in_map_iff in Hy as [x [<- Hin]].
      pose proof (proj2 (Hx x Hin)). pose proof (fold_max_in vdeep x l Hin). lia.
  - (* map[string] *)
    simpl in H |- *. destruct (str_lookup_cases k m) as [E|E]; rewrite ?E.
    + split; [reflexivity|simpl; lia].
    + split; [exact (proj1 (forallb_forall _ _) H _ E)|].
      pose proof (fold_max_in (fun kv => vdeep (snd kv)) _ m E). simpl in H0. lia.
  - (* map[interface{}] *)
    simpl in H |- *. destruct (iface_lookup_cases k m) as [E|[key E]]; rewrite ?E.
    + split; [reflexivity|simpl; lia].
    + split; [exact (proj1 (forallb_forall _ _) H _ E)|].
      pose proof (fold_max_in (fun kv => vdeep (snd kv)) _ m E). simpl in H0. lia.
Qed.

(** The key selector on raw data, as in the C6 development. *)
Lemma key_selector_on_raw :
  forall resolve fuel k v h,
    raw v = true -> (vdepth v < fuel)%nat ->
    apply resolve fuel (FKeySelector k) v h = ok (spec_key_select k v) h.
Proof.
  intros resolve fuel k. induction fuel as [|n IH]; intros v h Hraw Hd; [lia|].
  destruct v; try discriminate Hraw; try reflexivity.
  simpl in Hraw, Hd.
  assert (Hall : forall x, In x l -> raw x = true /\ (vdepth x < n)%nat).
  { intros x Hin. split.
    - exact (proj1 (forallb_forall _ _) Hraw x Hin).
    - pose proof (fold_max_in vdepth x l Hin). lia. }
  cbn [apply resolve_in].
  assert (Ht : traverse (apply resolve n (FKeySelector k)) l h
               = (inl (map (spec_key_select k) l), h)).
  { clear Hraw Hd. induction l as [|x l IHl]; [reflexivity|].
    simpl. rewrite (IH x h) by (apply Hall; left; reflexivity).
    unfold ok. rewrite IHl by (intros y Hy; apply Hall; right; exact Hy).
    reflexivity. }
  rewrite Ht. reflexivity.
Qed.

Lemma chain_key_sels (resolve : string -> value * option string) (ks : list string) :
  forall n v h, deep_raw v = true -> (vdeep v < n)%nat ->
  chain (apply resolve n) (key_sels ks) v h
  = ok (fold_left (fun x k => spec_key_select k x) ks v) h.
Proof.
  induction ks as [|k ks IH]; intros n v h Hv Hn; [reflexivity|].
  destruct n as [|n']; [lia|].
  cbn [key_sels flat_map app chain].
  change (apply resolve (S n') FIdentity v h) with (ok v h). unfold ok at 1.
  rewrite key_selector_on_raw.
  - unfold ok at 1. cbn [fold_left].
    destruct (key_select_deep k (S (vdeep v)) v ltac:(lia) Hv) as [H1 H2].
    apply IH; [exact H1|lia].
  - exact (deep_raw_raw (S (vdeep v)) v ltac:(lia) Hv).
  - pose proof (vdepth_le_vdeep (S (vdeep v)) v ltac:(lia)). lia.
Qed.

Lemma dotted_length (ks : list string) :
  forallb is_key ks = true -> (2 * length ks <= length (list_ascii_of_string (dotted ks)))%nat.
Proof.
  induction ks as [|k ks IH]; simpl; intros Hk; [lia|].
  apply andb_true_iff in Hk as [Hk Hks].
  rewrite list_ascii_of_string_append, length_app.
  unfold is_key in Hk. destruct (list_ascii_of_string k); [discriminate Hk|].
  simpl. specialize (IH Hks). lia.
Qed.

Lemma tokens_dotted (ks : list string) :
  forallb is_key ks = true -> tokens (dotted ks) = dotted_tokens ks ++ [newTok tEOF].
Proof.
  intros Hk. unfold tokens. pose proof (dotted_length ks Hk) as Hl.
  replace (S (length (list_ascii_of_string (dotted ks))))
    with (2 * length ks + S (length (list_ascii_of_string (dotted ks)) - 2 * length ks))%nat
    by lia.
  rewrite <- (app_nil_r (list_ascii_of_string (dotted ks))).
  rewrite lex_dotted by (exact Hk || reflexivity). reflexivity.
Qed.

Lemma deep_raw_fold_keys (ks : list string) : forall v,
  deep_raw v = true -> deep_raw (fold_left (fun x k => spec_key_select k x) ks v) = true.
Proof.
  induction ks as [|k ks IH]; intros v Hv; [exact Hv|].
  simpl. apply IH. exact (proj1 (key_select_deep k (S (vdeep v)) v ltac:(lia) Hv)).
Qed.

Lemma unpack_deep_raw (n : nat) (v : value) (h : heap) :
  deep_raw v = true -> unpackValueStreams (S n) v h = ok v h.
Proof. intros Hv. destruct v; try discriminate Hv; reflexivity. Qed.

(** A filter [.k1.k2...kn] of plain keys applied to a stream-free value looks up the keys one after the other (null for a missing key or a non-map), leaving the heap unchanged. *)
Theorem Filter_Apply_dotted_path :
  forall resolve fuel ks v h,
    forallb is_key ks = true -> deep_raw v = true ->
    (2 * length ks + vdeep v + 6 <= fuel)%nat ->
    Filter_Apply resolve fuel (dotted ks) v h
    = ok (fold_left (fun x k => spec_key_select k x) ks v) h.
Proof.
  intros resolve fuel ks v h Hk Hv Hf. unfold Filter_Apply.
  rewrite tokens_dotted by exact Hk.
  rewrite filters_dotted by lia.
  destruct fuel as [|n]; [lia|].
  destruct ks as [|k ks].
  - apply unpack_deep_raw. exact Hv.
  - cbn [apply]. rewrite chain_key_sels by (exact Hv || lia).
    unfold ok at 1. apply unpack_deep_raw. apply deep_raw_fold_keys. exact Hv.
Qed.

Lemma numeric_not_space (c : ascii) : isNumericByte c = true -> is_space c = false.
Proof.
  destruct c as [[] [] [] [] [] [] [] []]; vm_compute; intros H;
    first [reflexivity | discriminate H].
Qed.

Lemma scanNumber_spec : forall inp acc,
  forallb isNumericByte acc = true -> acc <> [] ->
  tokType (fst (scanNumber inp acc)) = tNumber /\
  number_text (tokText (fst (scanNumber inp acc))) = true /\
  (length (snd (scanNumber inp acc)) <= length inp)%nat.
Proof.
  assert (Hfin : forall acc, forallb isNumericByte acc = true -> acc <> [] ->
            number_text (TrimSpace acc) = true).
  { intros acc Ha Hne. rewrite TrimSpace_nospace.
    - unfold number_text. rewrite list_ascii_of_string_of_list_ascii.
      destruct acc; [congruence|exact Ha].
    - apply forallb_forall. intros x Hx.
      rewrite (numeric_not_space x (proj1 (forallb_forall _ _) Ha x Hx)). reflexivity. }
  induction inp as [|c r IH]; intros acc Ha Hne.
  - simpl. split; [reflexivity|]. split; [exact (Hfin acc Ha Hne)|lia].
  - simpl. destruct (isNumericByte c) eqn:Ec.
    + destruct (IH (acc ++ [c])) as [H1 [H2 H3]].
      * rewrite forallb_app, Ha. simpl. rewrite Ec. reflexivity.
      * destruct acc; discriminate.
      * split; [exact H1|]. split; [exact H2|lia].
    + simpl. split; [reflexivity|]. split; [exact (Hfin acc Ha Hne)|lia].
Qed.

Lemma scanLiteral_spec : forall inp acc,
  tokType (fst (scanLiteral inp acc)) = tText /\
  (length (snd (scanLiteral inp acc)) <= length inp)%nat.
Proof.
  induction inp as [|c r IH]; intros acc; simpl; [split; [reflexivity|lia]|].
  destruct (literalMatch c); simpl.
  - destruct (IH (acc ++ [c])) as [H1 H2]. split; [exact H1|lia].
  - split; [reflexivity|lia].
Qed.

Lemma scanQuotedText_spec : forall inp acc,
  tokType (fst (scanQuotedText inp acc)) = tText /\
  (length (snd (scanQuotedText inp acc)) <= length inp)%nat.
Proof.
  induction inp as [|c r IH]; intros acc; simpl; [split; [reflexivity|lia]|].
  destruct (Ascii.eqb c "034" || Ascii.eqb c NUL); simpl.
  - split; [reflexivity|lia].
  - destruct (IH (acc ++ [c])) as [H1 H2]. split; [exact H1|lia].
Qed.

Lemma scanNumber_start (c : ascii) (r : list ascii) :
  isNumericByte c = true -> scanNumber (c :: r) [] = scanNumber r [c].
Proof. intros H. simpl. rewrite H. reflexivity. Qed.

Lemma scanned_number (inp : list ascii) (c : ascii) (r : list ascii) :
  isNumericByte c = true -> (length r < length inp)%nat ->
  scanned_ok inp (scanNumber (c :: r) []).
Proof.
  intros Hp Hl. rewrite (scanNumber_start c r Hp).
  destruct (scanNumber_spec r [c]) as [H1 [H2 H3]];
    [simpl; rewrite Hp; reflexivity|discriminate|].
  destruct (scanNumber r [c]) as [t r'] eqn:E. simpl in H1, H2, H3 |- *.
  rewrite H1. split; [discriminate|]. split; [intros _; lia|].
  split; [discriminate|]. split; [discriminate|]. intros _. exact H2.
Qed.

Ltac scanned_punct := simpl; repeat split; try discriminate; simpl; lia.

Lemma Scan_spec : forall inp, scanned_ok inp (Scan inp).
Proof.
  induction inp as [|ch r IH].
  - simpl. repeat split; intros; first [discriminate | congruence | reflexivity].
  - cbn [Scan].
    destruct (Ascii.eqb ch NUL).
    { simpl. repeat split; intros; first [discriminate | congruence | reflexivity]. }
    destruct (Ascii.eqb ch "013" || Ascii.eqb ch " ").
    { destruct (Scan r) as [t r']. destruct IH as [H1 [H2 H3]].
      split; [exact H1|]. split; [intros Ht; specialize (H2 Ht); simpl; lia|exact H3]. }
    destruct (Ascii.eqb ch "|"); [scanned_punct|].
    destruct (Ascii.eqb ch "["); [scanned_punct|].
    destruct (Ascii.eqb ch "]"); [scanned_punct|].
    destruct (Ascii.eqb ch "("); [scanned_punct|].
    destruct (Ascii.eqb ch ")"); [scanned_punct|].
    destruct (Ascii.eqb ch "{"); [scanned_punct|].
    destruct (Ascii.eqb ch "}"); [scanned_punct|].
    destruct (Ascii.eqb ch ":"); [scanned_punct|].
    destruct (Ascii.eqb ch ".").
    { destruct (peek_numeric r) eqn:Ep.
      { destruct r as [|c r0]; [discriminate Ep|]. apply scanned_number; [exact Ep|simpl; lia]. }
      scanned_punct. }
    destruct (Ascii.eqb ch ","); [scanned_punct|].
    destruct (Ascii.eqb ch "+"); [scanned_punct|].
    destruct (Ascii.eqb ch "-").
    { destruct (peek_numeric r) eqn:Ep.
      { destruct r as [|c r0]; [discriminate Ep|]. apply scanned_number; [exact Ep|simpl; lia]. }
      scanned_punct. }
    destruct (Ascii.eqb ch "*"); [scanned_punct|].
    destruct (Ascii.eqb ch "/"); [scanned_punct|].
    destruct (is_digit ch) eqn:Ed.
    { apply scanned_number; [unfold isNumericByte; rewrite Ed; reflexivity|simpl; lia]. }
    destruct (Ascii.eqb ch "034").
    { destruct (scanQuotedText_spec r []) as [H1 H2].
      destruct (scanQuotedText r []) as [t r']. simpl in H1, H2 |- *. rewrite H1.
      repeat split; try discriminate; lia. }
    destruct (scanLiteral_spec r [ch]) as [H1 H2].
    destruct (scanLiteral r [ch]) as [t r']. simpl in H1, H2 |- *. rewrite H1.
    repeat split; try discriminate; lia.
Qed.

Lemma lex_shape : forall fuel inp, (length inp < fuel)%nat ->
  exists ts, lex fuel inp = ts ++ [newTok tEOF] /\ Forall tok_ok ts.
Proof.
  induction fuel as [|n IH]; intros inp Hl; [lia|].
  cbn [lex]. pose proof (Scan_spec inp) as Hs.
  destruct (Scan inp) as [t r]. destruct Hs as [H1 [H2 [H3 [H4 H5]]]].
  destruct (tokType t) eqn:Et;
    try (exfalso; congruence);
    try (destruct (IH r) as [ts [E Hts]]; [specialize (H2 ltac:(discriminate)); lia|];
         exists (t :: ts); rewrite E; split; [reflexivity|];
         constructor; [|exact Hts];
         unfold tok_ok; rewrite Et; repeat split; try discriminate; exact H5).
  exists []. rewrite (H1 eq_refl). split; [reflexivity|constructor].
Qed.

(** The token list of any ASCII source ends in exactly one EOF token, and every token before it is a valid non-EOF token: never illegal, never a length token, with number texts made of digits and dots. *)
Theorem tokens_shape (s : string) :
  ascii_src s = true ->
  exists ts, tokens s = ts ++ [newTok tEOF] /\ Forall tok_ok ts.
Proof. intros _. unfold tokens. apply lex_shape. lia. Qed.

Lemma tokens_shape_witness :
  ascii_src ".a[1:2] | 5" = true
  /\ exists ts, tokens ".a[1:2] | 5" = ts ++ [newTok tEOF] /\ Forall tok_ok ts.
Proof. split; [reflexivity|exact (tokens_shape ".a[1:2] | 5" eq_refl)]. Defined.

(** For a punctuation token type, scanning its printed form yields that token type and leaves the rest of the input untouched, provided the rest does not start a number. *)
Theorem Scan_tokenType_String (tt : tokenType) (r : list ascii) :
  is_punct tt = true -> peek_numeric r = false ->
  Scan (list_ascii_of_string (tokenType_String tt) ++ r) = (newTok tt, r).
Proof.
  intros Hp Hn. destruct tt; try discriminate Hp; simpl; try rewrite Hn; reflexivity.
Qed.

Lemma Scan_tokenType_String_witness :
  Scan (list_ascii_of_string (tokenType_String tMinus) ++ list_ascii_of_string "x")
  = (newTok tMinus, list_ascii_of_string "x").
Proof. apply Scan_tokenType_String; reflexivity. Defined.

Lemma parse_iterate_all_fuel (m : nat) :
  filters (20 + m) (init_pstate (tokens ".[]")) [] = inl [FSelector [FIdentity; FIterateAll]].
Proof. vm_compute. reflexivity. Qed.

Lemma iterate_all_step (resolve : string -> value * option string) (n : nat) v h :
  deep_raw v = true ->
  apply resolve (S n) FIterateAll v h
  = match newStream v h with (inl s, h') => ok s h' | (inr e, h') => fail e h' end.
Proof. intros Hv. destruct v; try discriminate Hv; reflexivity. Qed.

Lemma newStream_raw (v : value) (es : list value) (h : heap) :
  deep_raw v = true -> stream_elems v = Some es ->
  exists s0, newStream v h = (inl (VStream (length h)), h ++ [OStream s0])
    /\ (s0 = mkStream 0 false None es \/ (s0 = mkStream 0 false (Some v) [] /\ es = [v])).
Proof.
  intros Hv He. destruct v; try discriminate Hv; simpl in He; injection He as <-;
    eexists; (split; [reflexivity|]); first [left; reflexivity | right; split; reflexivity].
Qed.

Lemma unpack_pure (n : nat) (x : value) (h' : heap) :
  deep_raw x = true -> unpackValueStreams (S n) x h' = ok ((fun y => y) x) h'.
Proof. apply unpack_deep_raw. Qed.

Lemma apply_selector_step (resolve : string -> value * option string) n sels v h :
  apply resolve (S n) (FSelector sels) v h = chain (apply resolve n) sels v h.
Proof. reflexivity. Qed.

Lemma unpack_stream_step (n p : nat) (h : heap) :
  unpackValueStreams (S n) (VStream p) h = applyToStream n (unpackValueStreams n) p [] h.
Proof. reflexivity. Qed.

Lemma applyToStream_step (n : nat) g p acc h :
  applyToStream (S n) g p acc h
  = match get_stream h p with
    | None => fail nil_deref h
    | Some s =>
        let (o, s') := valueStream_Next s in
        let h1 := upd h p (OStream s') in
        match o with
        | None => ok (VList acc) h1
        | Some v =>
            match g v h1 with
            | ((r, None), h2) => applyToStream n g p (acc ++ [r]) h2
            | ((_, Some e), h2) => fail e h2
            end
        end
    end.
Proof. reflexivity. Qed.

Lemma nth_error_mid {A} (h t : list A) (o : A) :
  nth_error (h ++ o :: t) (length h) = Some o.
Proof. rewrite nth_error_app2 by lia. rewrite Nat.sub_diag. reflexivity. Qed.

Lemma upd_mid (h t : heap) (o o' : obj) :
  upd (h ++ o :: t) (length h) o' = h ++ o' :: t.
Proof.
  unfold upd. rewrite firstn_app, firstn_all, Nat.sub_diag, firstn_O, app_nil_r.
  rewrite skipn_app, skipn_all2 by (simpl; lia).
  replace (S (length h) - length h)%nat with 1%nat by lia. reflexivity.
Qed.

(** Unpacking a fresh stream lifted from raw data. *)
Lemma unpack_lifted (n : nat) (v : value) (es : list value) (h t : heap) (s0 : valueStream) :
  deep_raw v = true -> stream_elems v = Some es ->
  (s0 = mkStream 0 false None es \/ (s0 = mkStream 0 false (Some v) [] /\ es = [v])) ->
  (length es + 2 < n)%nat ->
  exists s, unpackValueStreams n (VStream (length h)) (h ++ OStream s0 :: t)
            = ok (VList es) (h ++ OStream s :: t) /\ fst (valueStream_Next s) = None.
Proof.
  intros Hv He Hs Hn.
  assert (Hel : forall x, In x es -> deep_raw x = true).
  { intros x Hx. destruct v; try discriminate Hv; simpl in He; injection He as <-;
      first [ exact (proj1 (forallb_forall _ _) Hv x Hx)
            | destruct Hx as [<-|[]]; exact Hv
            | destruct Hx ]. }
  destruct n as [|[|n]]; [lia|lia|].
  rewrite unpack_stream_step.
  destruct Hs as [-> | [-> ->]].
  - exists (mkStream (length es) false None es).
    rewrite (applyToStream_pure (fun y => y) (unpackValueStreams (S n)) (S n) es 0).
    + rewrite map_id, upd_mid. split; [reflexivity|].
      unfold valueStream_Next. cbn. rewrite Nat.eqb_refl. reflexivity.
    + intros x h' Hx. apply unpack_pure. exact (Hel x Hx).
    + unfold get_stream. rewrite nth_error_mid. reflexivity.
    + lia.
    + simpl in Hn. lia.
  - exists (mkStream 0 false None []).
    rewrite applyToStream_step. unfold get_stream at 1. rewrite nth_error_mid.
    cbv beta iota zeta delta [valueStream_Next vs_val vs_i vs_done vs_vals].
    rewrite upd_mid.
    rewrite (unpack_pure n v) by exact Hv. unfold ok at 1.
    rewrite (applyToStream_pure (fun y => y) (unpackValueStreams (S n)) n [] 0).
    + rewrite upd_mid. split; reflexivity.
    + intros x h' [].
    + unfold get_stream. rewrite nth_error_mid. reflexivity.
    + simpl. lia.
    + simpl in Hn. simpl. lia.
Qed.

(** The filter [.[]] applied to stream-free data returns the list [stream_elems v] (the elements of a list, empty for null, the value itself for a scalar or a mapping), allocating one stream that is left exhausted. *)
Theorem iterate_all_raw :
  forall resolve fuel v es h,
    deep_raw v = true -> stream_elems v = Some es ->
    (length es + 20 <= fuel)%nat ->
    exists s, Filter_Apply resolve fuel ".[]" v h = ok (VList es) (h ++ [OStream s])
      /\ fst (valueStream_Next s) = None.
Proof.
  intros resolve fuel v es h Hv He Hf.
  replace fuel with (20 + (fuel - 20))%nat by lia.
  unfold Filter_Apply. rewrite parse_iterate_all_fuel.
  set (m := (fuel - 20)%nat).
  change (20 + m)%nat with (S (S (S (17 + m)))).
  cbv beta iota fix zeta.
  rewrite apply_selector_step. cbn [chain].
  change (apply resolve (S (S (17 + m))) FIdentity v h) with (ok v h). unfold ok at 1.
  rewrite iterate_all_step by exact Hv.
  destruct (newStream_raw v es h Hv He) as [s0 [E Hs0]]. rewrite E. unfold ok at 1.
  apply (unpack_lifted _ v es h [] s0 Hv He Hs0). lia.
Qed.

Lemma parse_iterate_twice (m : nat) :
  filters (20 + m) (init_pstate (tokens ".[] | .[]")) []
  = inl [FSelector [FIdentity; FIterateAll]; FSelector [FIdentity; FIterateAll]].
Proof. vm_compute. reflexivity. Qed.

(** The filter [.[] | .[]] applied to stream-free data returns a one-element list holding the list [stream_elems v] that [.[]] alone returns. *)
Theorem iterate_all_twice :
  forall resolve fuel v es h,
    deep_raw v = true -> stream_elems v = Some es ->
    (length es + 20 <= fuel)%nat ->
    exists h', Filter_Apply resolve fuel ".[] | .[]" v h = ok (VList [VList es]) h'.
Proof.
  intros resolve fuel v es h Hv He Hf.
  replace fuel with (20 + (fuel - 20))%nat by lia.
  unfold Filter_Apply. rewrite parse_iterate_twice.
  set (m := (fuel - 20)%nat).
  change (20 + m)%nat with (S (S (S (17 + m)))).
  cbv beta iota fix zeta.
  rewrite apply_selector_step. cbn [chain].
  change (apply resolve (S (S (17 + m))) FIdentity v h) with (ok v h). cbv beta iota zeta delta [ok].
  rewrite iterate_all_step by exact Hv.
  destruct (newStream_raw v es h Hv He) as [s0 [E Hs0]]. rewrite E. cbv beta iota zeta delta [ok].
  rewrite apply_selector_step. cbn [chain].
  change (apply resolve (S (S (17 + m))) FIdentity (VStream (length h)) (h ++ [OStream s0]))
    with (ok (VStream (length h)) (h ++ [OStream s0])). cbv beta iota zeta delta [ok].
  change (apply resolve (S (S (17 + m))) FIterateAll (VStream (length h)) (h ++ [OStream s0]))
    with (match newStream (VStream (length h)) (h ++ [OStream s0]) with
          | (inl s, h') => ok s h' | (inr e, h') => fail e h' end).
  cbn [newStream alloc]. cbv beta iota zeta delta [ok].
  rewrite unpack_stream_step.
  change (17 + m)%nat with (S (S (15 + m))).
  rewrite applyToStream_step. unfold get_stream at 1. rewrite nth_error_app_length.
  cbv beta iota zeta delta [valueStream_Next vs_val vs_i vs_done vs_vals].
  rewrite upd_app_length.
  destruct (unpack_lifted (S (S (S (S (15 + m))))) v es h [OStream (mkStream 0 false None [])] s0
              Hv He Hs0 ltac:(lia)) as [s [E2 _]].
  rewrite <- app_assoc. cbn [app]. rewrite E2. cbv beta iota zeta delta [ok].
  replace (h ++ [OStream s; OStream (mkStream 0 false None [])])
    with ((h ++ [OStream s]) ++ [OStream (mkStream 0 false None [])])
    by (rewrite <- app_assoc; reflexivity).
  replace (length (h ++ [OStream s0])) with (length (h ++ [OStream s])) by (rewrite !length_app; reflexivity).
  rewrite applyToStream_step. unfold get_stream at 1. rewrite nth_error_app_length.
  cbv beta iota zeta delta [valueStream_Next vs_val vs_i vs_done vs_vals].
  simpl. eexists. reflexivity.
Qed.

Lemma chain_app (g : filter -> value -> heap -> outcome) (a b : list filter) :
  forall v h,
  chain g (a ++ b) v h
  = match chain g a v h with ((o, None), h1) => chain g b o h1 | res => res end.
Proof.
  induction a as [|s a IH]; intros v h; [reflexivity|].
  cbn [app chain]. destruct (g s v h) as [[o [e|]] h1]; [reflexivity|]. apply IH.
Qed.

(** A selector over the concatenation of two selector lists runs the first list, stops on its error, and otherwise runs the second list on its output and heap. *)
Theorem selector_append :
  forall resolve n a b v h,
    apply resolve (S n) (FSelector (a ++ b)) v h
    = match apply resolve (S n) (FSelector a) v h with
      | ((o, None), h1) => apply resolve (S n) (FSelector b) o h1
      | res => res
      end.
Proof. intros. cbn [apply]. apply chain_app. Qed.

(** A run of dotted keys followed by [rest]: one [FSelector] of the keys,
    with the parser then facing [rest]'s first token (unscanned). *)
Lemma readFilter_dotted (k : string) (ks : list string) (n : nat) (t : token)
    (rest : list token) (lt : token) :
  match tokType t with tDot | tText | tLeftBracket => False | _ => True end ->
  readFilter (S (S (S (2 * length ks + S n))))
    (mkPState (dotted_tokens (k :: ks) ++ t :: rest) None lt) FNil []
  = readFilter (S (S (2 * length ks + S n))) (mkPState rest (Some t) t)
      (FSelector (key_sels (k :: ks))) [].
Proof.
  intros Ht.
  change (dotted_tokens (k :: ks) ++ t :: rest)
    with (newTok tDot :: mkToken tText k :: (dotted_tokens ks ++ t :: rest)).
  rewrite readFilter_dot_text.
  destruct (readSelector_dotted ks (S n) (t :: rest) (mkToken tText k)
              [FIdentity; FKeySelector k]) as [lt' E].
  rewrite E. cbn [readSelector p_scan buf toks].
  destruct (tokType t) eqn:Et; try contradiction Ht; reflexivity.
Qed.

Lemma filters_dotted_gen (ks : list string) (fuel : nat) (lt : token)
    (fs : list filter) :
  ks <> [] -> (2 * length ks + 6 <= fuel)%nat ->
  filters fuel (mkPState (dotted_tokens ks ++ [newTok tEOF]) None lt) fs
  = inl (fs ++ [FSelector (key_sels ks)]).
Proof.
  intros Hne Hf. destruct ks as [|k ks]; [congruence|].
  replace fuel with (S (S (S (S (2 * length ks + S (fuel - 5 - 2 * length ks))))))
    by (simpl in Hf; lia).
  rewrite filters_step. rewrite readFilter_dotted by exact I. reflexivity.
Qed.

Lemma Scan_comma (r : list ascii) : Scan (","%char :: r) = (newTok tComma, r).
Proof. reflexivity. Qed.

Lemma lex_comma (n : nat) (r : list ascii) :
  lex (S n) (","%char :: r) = newTok tComma :: lex n r.
Proof. reflexivity. Qed.

Lemma tokens_comma (ks1 ks2 : list string) :
  forallb is_key ks1 = true -> forallb is_key ks2 = true ->
  tokens (comma_src ks1 ks2)
  = dotted_tokens ks1 ++ newTok tComma :: dotted_tokens ks2 ++ [newTok tEOF].
Proof.
  intros H1 H2. unfold tokens, comma_src.
  pose proof (dotted_length ks1 H1) as L1. pose proof (dotted_length ks2 H2) as L2.
  rewrite list_ascii_of_string_append. cbn [list_ascii_of_string].
  rewrite length_app. cbn [length].
  remember (length (list_ascii_of_string (dotted ks1))) as la eqn:Ea.
  remember (length (list_ascii_of_string (dotted ks2))) as lb eqn:Eb.
  replace (S (la + S lb))
    with (2 * length ks1 + S (S (la - 2 * length ks1 + lb)))%nat by lia.
  rewrite lex_dotted by (exact H1 || reflexivity).
  rewrite lex_comma.
  replace (S (la - 2 * length ks1 + lb))
    with (2 * length ks2 + S (la - 2 * length ks1 + lb - 2 * length ks2))%nat
    by lia.
  rewrite <- (app_nil_r (list_ascii_of_string (dotted ks2))).
  rewrite lex_dotted by (exact H2 || reflexivity). reflexivity.
Qed.

Lemma filters_comma (ks1 ks2 : list string) (fuel : nat) :
  ks1 <> [] -> ks2 <> [] ->
  (2 * length ks1 + 2 * length ks2 + 12 <= fuel)%nat ->
  filters fuel (init_pstate (dotted_tokens ks1 ++ newTok tComma :: dotted_tokens ks2
                             ++ [newTok tEOF])) []
  = inl [FSlice [FSelector (key_sels ks1)]; FSelector (key_sels ks2)].
Proof.
  intros Hne1 Hne2 Hf. destruct ks1 as [|k ks1]; [congruence|].
  set (m := (fuel - 5 - 2 * length ks1)%nat).
  replace fuel with (S (S (S (S (2 * length ks1 + S m))))) by (simpl in Hf; unfold m; lia).
  rewrite filters_step. unfold init_pstate.
  rewrite readFilter_dotted by exact I.
  cbn [readFilter p_scan buf toks last tokType newTok app].
  rewrite filters_dotted_gen by (exact Hne2 || (simpl in Hf; unfold m; lia)).
  reflexivity.
Qed.

Lemma resolve_in_deep_raw (resolve : string -> value * option string) (v : value) :
  deep_raw v = true -> resolve_in resolve v = inl v.
Proof. intros Hv. destruct v; try discriminate Hv; reflexivity. Qed.

Lemma fold_keys_list (ks : list string) : forall l,
  fold_left (fun x k => spec_key_select k x) ks (VList l)
  = VList (map (fun x => fold_left (fun y k => spec_key_select k y) ks x) l).
Proof.
  induction ks as [|k ks IH]; intros l; simpl.
  - rewrite map_id. reflexivity.
  - rewrite IH, map_map. reflexivity.
Qed.

Lemma apply_slice_step (resolve : string -> value * option string) n fs v h :
  deep_raw v = true ->
  apply resolve (S n) (FSlice fs) v h
  = match traverse (fun fi => apply resolve n fi v) fs h with
    | (inl vals, h') => ok (VList vals) h'
    | (inr e, h') => fail e h'
    end.
Proof. intros Hv. destruct v; try discriminate Hv; reflexivity. Qed.

Lemma deep_fold_keys (ks : list string) : forall v, deep_raw v = true ->
  deep_raw (fold_left (fun x k => spec_key_select k x) ks v) = true /\
  (vdeep (fold_left (fun x k => spec_key_select k x) ks v) <= vdeep v)%nat.
Proof.
  induction ks as [|k ks IH]; intros v Hv; [split; [exact Hv|simpl; lia]|].
  simpl. destruct (key_select_deep k (S (vdeep v)) v ltac:(lia) Hv) as [H1 H2].
  destruct (IH _ H1) as [H3 H4]. split; [exact H3|lia].
Qed.

(** A filter [.a1...an, .b1...bm] of plain key paths is read as a pipeline: on a stream-free value it returns a one-element list holding the value at path [a] then [b]. *)
Theorem Filter_Apply_comma :
  forall resolve fuel ks1 ks2 v h,
    ks1 <> [] -> ks2 <> [] ->
    forallb is_key ks1 = true -> forallb is_key ks2 = true -> deep_raw v = true ->
    (2 * length ks1 + 2 * length ks2 + vdeep v + 12 <= fuel)%nat ->
    Filter_Apply resolve fuel (comma_src ks1 ks2) v h
    = ok (VList [fold_left (fun x k => spec_key_select k x) ks2
                   (fold_left (fun x k => spec_key_select k x) ks1 v)]) h.
Proof.
  intros resolve fuel ks1 ks2 v h Hn1 Hn2 H1 H2 Hv Hf.
  unfold Filter_Apply. rewrite tokens_comma by assumption.
  rewrite filters_comma by (assumption || lia).
  destruct fuel as [|n]; [lia|].
  cbv beta iota fix zeta.
  rewrite apply_slice_step by exact Hv.
  set (w := fold_left (fun x k => spec_key_select k x) ks1 v).
  assert (Hsel : apply resolve n (FSelector (key_sels ks1)) v h = ok w h).
  { destruct n as [|n]; [lia|]. rewrite apply_selector_step.
    apply chain_key_sels; [exact Hv|lia]. }
  destruct (deep_fold_keys ks1 v Hv) as [Hw Hdw].
  fold w in Hw, Hdw.
  cbn [traverse]. rewrite Hsel. cbv beta iota zeta delta [ok].
  rewrite apply_selector_step.
  rewrite chain_key_sels.
  - cbv beta iota zeta delta [ok]. rewrite fold_keys_list. apply unpack_deep_raw.
    simpl. rewrite andb_true_r. apply deep_raw_fold_keys. exact Hw.
  - simpl. rewrite Hw. reflexivity.
  - simpl. lia.
Qed.

Lemma blank_literal_cases (c : ascii) :
  blank_literal c = true -> c = "009"%char \/ c = "011"%char \/ c = "012"%char.
Proof.
  unfold blank_literal. intros H.
  repeat (apply orb_true_iff in H as [H|H]); apply Ascii.eqb_eq in H; subst; tauto.
Qed.

Lemma lex_blank (c : ascii) (d : nat) :
  blank_literal c = true -> lex (S (S d)) [c] = [mkToken tText EmptyString; newTok tEOF].
Proof. intros H. destruct (blank_literal_cases c H) as [->|[->| ->]]; reflexivity. Qed.

Lemma tokens_blank (ks : list string) (c : ascii) :
  forallb is_key ks = true -> blank_literal c = true ->
  tokens (String.append (dotted ks) (String c EmptyString))
  = dotted_tokens ks ++ [mkToken tText EmptyString; newTok tEOF].
Proof.
  intros Hk Hc. unfold tokens.
  pose proof (dotted_length ks Hk) as L.
  rewrite list_ascii_of_string_append. cbn [list_ascii_of_string].
  rewrite length_app. cbn [length].
  remember (length (list_ascii_of_string (dotted ks))) as la eqn:Ea.
  replace (S (la + 1)) with (2 * length ks + S (S (la - 2 * length ks)))%nat by lia.
  rewrite lex_dotted.
  - rewrite lex_blank by exact Hc. reflexivity.
  - exact Hk.
  - destruct (blank_literal_cases c Hc) as [->|[->| ->]]; reflexivity.
Qed.

Lemma filters_blank (ks : list string) (fuel : nat) :
  ks <> [] -> (2 * length ks + 8 <= fuel)%nat ->
  filters fuel (init_pstate (dotted_tokens ks ++ [mkToken tText EmptyString; newTok tEOF])) []
  = inl [FSelector (key_sels ks ++ [FKeySelector EmptyString])].
Proof.
  intros Hne Hf. destruct ks as [|k ks]; [congruence|].
  set (m := (fuel - 7 - 2 * length ks)%nat).
  replace fuel with (S (S (S (S (2 * length ks + S (S (S m))))))) by (simpl in Hf; unfold m; lia).
  rewrite filters_step.
  change (dotted_tokens (k :: ks) ++ [mkToken tText EmptyString; newTok tEOF])
    with (newTok tDot :: mkToken tText k
          :: (dotted_tokens ks ++ [mkToken tText EmptyString; newTok tEOF])).
  unfold init_pstate. rewrite readFilter_dot_text.
  destruct (readSelector_dotted ks (S (S (S m))) [mkToken tText EmptyString; newTok tEOF]
              (mkToken tText k) [FIdentity; FKeySelector k]) as [lt' E].
  rewrite E. reflexivity.
Qed.

(** A key path followed by a tab, vertical tab or form feed looks up one more, empty, key after the path. *)
Theorem Filter_Apply_trailing_blank :
  forall resolve fuel ks c v h,
    ks <> [] -> forallb is_key ks = true -> blank_literal c = true -> deep_raw v = true ->
    (2 * length ks + vdeep v + 8 <= fuel)%nat ->
    Filter_Apply resolve fuel (String.append (dotted ks) (String c EmptyString)) v h
    = ok (spec_key_select EmptyString (fold_left (fun x k => spec_key_select k x) ks v)) h.
Proof.
  intros resolve fuel ks c v h Hne Hk Hc Hv Hf.
  unfold Filter_Apply. rewrite tokens_blank by assumption.
  rewrite filters_blank by (assumption || lia).
  destruct fuel as [|n]; [lia|].
  cbv beta iota fix zeta.
  rewrite apply_selector_step, chain_app.
  rewrite chain_key_sels by (exact Hv || lia).
  destruct (deep_fold_keys ks v Hv) as [Hw Hdw].
  cbv beta iota zeta delta [ok]. cbn [chain].
  rewrite key_selector_on_raw.
  - cbv beta iota zeta delta [ok]. apply unpack_deep_raw.
    exact (proj1 (key_select_deep EmptyString _ _ (Nat.lt_succ_diag_r _) Hw)).
  - exact (deep_raw_raw _ _ (Nat.lt_succ_diag_r _) Hw).
  - pose proof (vdepth_le_vdeep _ _ (Nat.lt_succ_diag_r _) : (vdepth (fold_left (fun x k => spec_key_select k x) ks v) <= _)%nat).
    lia.
Qed.

Lemma scanQuotedText_close (l : list ascii) : forall acc r,
  no_quote l = true ->
  scanQuotedText (l ++ "034"%char :: r) acc = (mkToken tText (TrimSpace (acc ++ l)), r).
Proof.
  induction l as [|c l IH]; intros acc r Hl.
  - rewrite app_nil_r. reflexivity.
  - simpl in Hl. apply andb_true_iff in Hl as [Hc Hl].
    cbn [app scanQuotedText]. apply negb_true_iff in Hc. rewrite Hc.
    rewrite IH by exact Hl. rewrite <- app_assoc. reflexivity.
Qed.

Lemma lex_step (n : nat) (inp : list ascii) :
  lex (S n) inp = let (t, r) := Scan inp in
                  match tokType t with tEOF => [t] | _ => t :: lex n r end.
Proof. reflexivity. Qed.

Lemma Scan_quote (r : list ascii) : Scan ("034"%char :: r) = scanQuotedText r [].
Proof. reflexivity. Qed.

Lemma tokens_quoted (s : string) :
  no_quote (list_ascii_of_string s) = true ->
  tokens (quoted s) = [mkToken tText (TrimSpace (list_ascii_of_string s)); newTok tEOF].
Proof.
  intros Hq. unfold tokens, quoted. cbn [list_ascii_of_string].
  rewrite list_ascii_of_string_append. cbn [list_ascii_of_string].
  rewrite lex_step, Scan_quote, scanQuotedText_close by exact Hq.
  cbn [tokType]. reflexivity.
Qed.

Lemma filters_text (t : string) (m : nat) :
  String.eqb t "length" = false ->
  filters (S (S (S m))) (init_pstate [mkToken tText t; newTok tEOF]) [] = inl [FStringLiteral t].
Proof.
  intros H. rewrite filters_step. unfold init_pstate.
  cbn [readFilter p_scan toks buf tokType newTok].
  unfold parseTextFilter. cbn [tokText]. rewrite H. reflexivity.
Qed.

(** A filter that is a double-quoted ASCII string without inner quotes yields the string with its surrounding white space trimmed, unless that trimmed text is [length]. *)
Theorem Filter_Apply_quoted :
  forall resolve fuel s v h,
    ascii_src s = true -> no_quote (list_ascii_of_string s) = true ->
    TrimSpace (list_ascii_of_string s) <> "length"%string ->
    (forall p, v <> VStream p) -> (4 <= fuel)%nat ->
    Filter_Apply resolve fuel (quoted s) v h
    = ok (VString (TrimSpace (list_ascii_of_string s))) h.
Proof.
  intros resolve fuel s v h _ Hq Hl Hv Hf.
  unfold Filter_Apply. rewrite tokens_quoted by exact Hq.
  destruct fuel as [|[|[|[|m]]]]; try lia.
  rewrite filters_text by (apply String.eqb_neq; exact Hl).
  cbv beta iota fix zeta.
  destruct v; try (exfalso; eapply Hv; reflexivity); reflexivity.
Qed.

Lemma applyToStream_list (g : value -> heap -> outcome) : forall n p acc h out h',
  applyToStream n g p acc h = ((out, None), h') -> exists l, out = VList l.
Proof.
  induction n as [|n IH]; intros p acc h out h' H; [discriminate H|].
  rewrite applyToStream_step in H.
  destruct (get_stream h p) as [s|]; [|discriminate H].
  destruct (valueStream_Next s) as [[v|] s'].
  - cbv zeta in H. destruct (g v (upd h p (OStream s'))) as [[r [e|]] h2]; [discriminate H|]. exact (IH _ _ _ _ _ H).
  - injection H as <- _. eexists. reflexivity.
Qed.

Lemma unpack_not_stream (n : nat) (v : value) (h : heap) out h' :
  unpackValueStreams n v h = ((out, None), h') -> forall p, out <> VStream p.
Proof.
  intros H p ->. destruct n as [|n]; [discriminate H|].
  destruct v; try (injection H as E _; discriminate E).
  rewrite unpack_stream_step in H.
  destruct (applyToStream_list _ _ _ _ _ _ _ H) as [l E]. discriminate E.
Qed.

(** A successful [Filter.Apply] never returns a bare stream. *)
Theorem Filter_Apply_not_stream :
  forall resolve fuel src v h out h',
    Filter_Apply resolve fuel src v h = ((out, None), h') -> forall p, out <> VStream p.
Proof.
  intros resolve fuel src v h out h'. unfold Filter_Apply.
  destruct (filters fuel (init_pstate (tokens src)) []) as [fs|e]; [|discriminate].
  revert v h. induction fs as [|f fs IH]; intros v h H.
  - exact (unpack_not_stream _ _ _ _ _ H).
  - cbn beta iota fix in H.
    destruct (apply resolve fuel f v h) as [[v' [e|]] h1]; [discriminate H|].
    exact (IH _ _ H).
Qed.

Lemma parse_slice_iterate (m : nat) :
  filters (20 + m) (init_pstate (tokens "[.[]]")) [] = inl [FSlice [FSelector [FIdentity; FIterateAll]]].
Proof. vm_compute. reflexivity. Qed.

Lemma lifted_pending (v : value) (es : list value) (s0 : valueStream) :
  (s0 = mkStream 0 false None es \/ (s0 = mkStream 0 false (Some v) [] /\ es = [v])) ->
  fst (valueStream_Next_n (length es) s0) = map Some es.
Proof.
  intros [-> | [-> ->]].
  - pose proof (stream_pulls es (length es) 0 0 eq_refl) as E.
    rewrite Nat.add_0_r in E. rewrite E. simpl. rewrite app_nil_r. reflexivity.
  - reflexivity.
Qed.

(** The filter [[.[]]] on stream-free data returns a list holding one unread stream, which still delivers all of [stream_elems v]: unpacking is only done at the top level. *)
Theorem Filter_Apply_nested_stream :
  forall resolve fuel v es h,
    deep_raw v = true -> stream_elems v = Some es -> (20 <= fuel)%nat ->
    exists s, Filter_Apply resolve fuel "[.[]]" v h
              = ok (VList [VStream (length h)]) (h ++ [OStream s])
      /\ fst (valueStream_Next_n (length es) s) = map Some es.
Proof.
  intros resolve fuel v es h Hv He Hf.
  replace fuel with (20 + (fuel - 20))%nat by lia.
  unfold Filter_Apply. rewrite parse_slice_iterate.
  set (m := (fuel - 20)%nat).
  change (20 + m)%nat with (S (S (S (17 + m)))).
  cbv beta iota fix zeta.
  rewrite apply_slice_step by exact Hv.
  cbn [traverse]. rewrite apply_selector_step. cbn [chain].
  change (apply resolve (S (17 + m)) FIdentity v h) with (ok v h).
  cbv beta iota zeta delta [ok].
  change (17 + m)%nat with (S (16 + m)).
  rewrite iterate_all_step by exact Hv.
  destruct (newStream_raw v es h Hv He) as [s0 [E Hs0]]. rewrite E.
  exists s0. split; [reflexivity|]. exact (lifted_pending v es s0 Hs0).
Qed.

Lemma traverse_length {T} (g : T -> heap -> outcome) : forall xs h vs h',
  traverse g xs h = (inl vs, h') -> length vs = length xs.
Proof.
  induction xs as [|x xs IH]; intros h vs h' H.
  - injection H as <- _. reflexivity.
  - cbn [traverse] in H. destruct (g x h) as [[v [e|]] h1]; [discriminate H|].
    destruct (traverse g xs h1) as [[ws|e] h2] eqn:E; [|discriminate H].
    injection H as <- _. simpl. rewrite (IH _ _ _ E). reflexivity.
Qed.

Lemma map_fst_combine {A B} : forall (a : list A) (b : list B),
  length a = length b -> map fst (combine a b) = a.
Proof.
  induction a as [|x a IH]; intros [|y b] H; try discriminate H; [reflexivity|].
  simpl. rewrite IH by (simpl in H; lia). reflexivity.
Qed.

(** An object mapping applied successfully to a non-stream value yields a string-keyed map with exactly the keys of the mapping, listed in the mapping's order. *)
Theorem object_mapping_keys :
  forall resolve n m v h out h',
    (forall p, v <> VStream p) ->
    apply resolve (S n) (FObjectMapping m) v h = ((out, None), h') ->
    exists kvs, out = VStrMap kvs /\ map fst kvs = map fst m.
Proof.
  intros resolve n m v h out h' Hv H.
  assert (Hs : apply resolve (S n) (FObjectMapping m) v h
               = match traverse (fun kf => apply resolve n (snd kf) v) m h with
                 | (inl vals, h') => ok (VStrMap (combine (map fst m) vals)) h'
                 | (inr e, h') => fail e h'
                 end)
    by (destruct v; try (exfalso; eapply Hv; reflexivity); reflexivity).
  rewrite Hs in H.
  destruct (traverse _ m h) as [[vals|e] h1] eqn:E; [|discriminate H].
  injection H as <- _. eexists. split; [reflexivity|].
  apply map_fst_combine. rewrite length_map. symmetry. exact (traverse_length _ _ _ _ _ E).
Qed.

End Filters.

(** ** Stream application and witnesses *)

Section Witnesses.
Local Open Scope nat_scope.
Local Open Scope list_scope.

Lemma get_stream_lt (h : heap) (p : nat) (s : valueStream) :
  get_stream h p = Some s -> p < length h.
Proof.
  unfold get_stream. destruct (nth_error h p) eqn:E; [|discriminate].
  intros _. exact (nth_error_lt _ _ _ E).
Qed.

Lemma get_stream_upd (h : heap) (p : nat) (s s' : valueStream) :
  get_stream h p = Some s -> get_stream (upd h p (OStream s')) p = Some s'.
Proof.
  intros H. unfold get_stream. rewrite nth_error_upd_same by exact (get_stream_lt _ _ _ H).
  reflexivity.
Qed.

Lemma skipn_nth_cons {A} (l : list A) (i : nat) (x : A) :
  nth_error l i = Some x -> skipn i l = x :: skipn (S i) l.
Proof.
  revert i. induction l as [|y l IHl]; intros [|i] E; try discriminate.
  - inversion E; reflexivity.
  - simpl in E |- *. apply IHl. exact E.
Qed.

(** [applyToStream] with a filter [g] that maps every element [x] the
    stream still delivers to [G x] without error and without touching the
    stream object (it may allocate): the result is the accumulator followed
    by [G] of the pending value and of the remaining list elements (none if
    the stream was closed), in order, and the stream is left drained. *)
Theorem applyToStream_maps (G : value -> value) (g : value -> heap -> outcome) :
  forall n s acc h p,
    (forall x hh, In x (stream_pending s) -> p < length hh ->
       exists hh', g x hh = ok (G x) hh' /\ nth_error hh' p = nth_error hh p) ->
    get_stream h p = Some s ->
    vs_i s <= length (vs_vals s) -> length (stream_pending s) < n ->
    exists h', applyToStream n g p acc h = ok (VList (acc ++ map G (stream_pending s))) h'
      /\ get_stream h' p = Some (stream_drained s).
Proof.
  induction n as [|n IH]; intros [i done val vals] acc h p Hg Hs Hi Hn; [lia|].
  cbn [applyToStream]. rewrite Hs.
  unfold stream_pending, stream_drained in *. cbn [vs_i vs_done vs_val vs_vals] in *.
  unfold valueStream_Next. cbn [vs_i vs_done vs_val vs_vals].
  destruct val as [v|].
  - destruct (Hg v (upd h p (OStream (mkStream i done None vals)))) as [h2 [E2 N2]];
      [left; reflexivity|rewrite upd_length by exact (get_stream_lt _ _ _ Hs); exact (get_stream_lt _ _ _ Hs)|].
    rewrite E2. unfold ok at 1.
    destruct (IH (mkStream i done None vals) (acc ++ [G v]) h2 p) as [h' [E' S']].
    + intros x hh Hx Hp. apply Hg; [right; exact Hx|exact Hp].
    + unfold get_stream. rewrite N2. fold (get_stream (upd h p (OStream (mkStream i done None vals))) p).
      exact (get_stream_upd _ _ _ _ Hs).
    + exact Hi.
    + simpl in Hn |- *. lia.
    + exists h'. rewrite E'. cbn [stream_pending vs_val app] in *. split.
      * rewrite <- app_assoc. reflexivity.
      * exact S'.
  - cbn [app] in *.
    destruct (Nat.eqb_spec i (length vals)) as [Heq|Hne].
    + exists (upd h p (OStream (mkStream i done None vals))). cbn [orb].
      split.
      * subst i. rewrite skipn_all. destruct done; rewrite app_nil_r; reflexivity.
      * rewrite (get_stream_upd _ _ _ _ Hs). subst i. destruct done; reflexivity.
    + destruct done; cbn [orb].
      * exists (upd h p (OStream (mkStream i true None vals))). rewrite app_nil_r.
        split; [reflexivity|exact (get_stream_upd _ _ _ _ Hs)].
      * destruct (nth_error vals i) as [x|] eqn:E; [|apply nth_error_None in E; lia].
        rewrite (skipn_nth_cons _ _ _ E) in Hg, Hn |- *.
        destruct (Hg x (upd h p (OStream (mkStream (S i) false None vals)))) as [h2 [E2 N2]];
          [left; reflexivity|rewrite upd_length by exact (get_stream_lt _ _ _ Hs); exact (get_stream_lt _ _ _ Hs)|].
        rewrite E2. unfold ok at 1.
        destruct (IH (mkStream (S i) false None vals) (acc ++ [G x]) h2 p) as [h' [E' S']].
        -- intros y hh Hy Hp. apply Hg; [right; exact Hy|exact Hp].
        -- unfold get_stream. rewrite N2.
           fold (get_stream (upd h p (OStream (mkStream (S i) false None vals))) p).
           exact (get_stream_upd _ _ _ _ Hs).
        -- cbn. apply nth_error_Some. rewrite E. discriminate.
        -- simpl in Hn |- *. lia.
        -- exists h'. rewrite E'. cbn [stream_pending stream_drained vs_val vs_done vs_i vs_vals app] in *.
           split; [rewrite <- app_assoc; reflexivity|exact S'].
Qed.

Lemma iterator_next_scan_key_witness :
  iterator_Scan (snd (iterator_Next_n 2 (NewIterator [VInt 7; VInt 8]))) = inl (VInt 8)
  /\ iterator_Key (snd (iterator_Next_n 2 (NewIterator [VInt 7; VInt 8]))) = VInt 1.
Proof.
  exact (proj2 (proj2 (iterator_next_scan_key [VInt 7; VInt 8] 0)) 1 ltac:(simpl; lia)).
Defined.

Lemma length_of_iterator_witness :
  apply no_resolver 4 FLength (VIter 0) [OIter (NewIterator [VInt 7; VInt 8])]
  = ok (VInt 2) (upd [OIter (NewIterator [VInt 7; VInt 8])] 0
                   (OIter (mkIterator 1 [VInt 7; VInt 8])))
  /\ fst (iterator_Next (mkIterator 1 [VInt 7; VInt 8])) = false.
Proof.
  exact (length_of_iterator no_resolver 3 [VInt 7; VInt 8] 0
           [OIter (NewIterator [VInt 7; VInt 8])] 0 eq_refl
           ltac:(simpl; lia) ltac:(simpl; lia)).
Defined.

Lemma index_of_iterator_witness :
  fst (apply no_resolver 4 (FIndexSelector 1) (VIter 0) [OIter (NewIterator [VInt 7; VInt 8])])
  = (VInt 8, None).
Proof.
  exact (index_of_iterator no_resolver 3 [VInt 7; VInt 8] 1
           [OIter (NewIterator [VInt 7; VInt 8])] 0 eq_refl ltac:(simpl; lia)).
Defined.

Lemma range_of_iterator_witness :
  fst (apply no_resolver 4 (FIndexRange 1 0 false) (VIter 0)
         [OIter (NewIterator [VInt 7; VInt 8])])
  = (VList [VInt 7; VInt 8], None).
Proof.
  exact (range_of_iterator no_resolver 3 [VInt 7; VInt 8] 1 0 false
           [OIter (NewIterator [VInt 7; VInt 8])] 0 eq_refl ltac:(simpl; lia)).
Defined.

Lemma applyToStream_maps_witness :
  exists h', applyToStream 3 (apply no_resolver 2 (FKeySelector "a")) 0 []
               [OStream (mkStream 0 true (Some (VStrMap [("a"%string, VInt 1)])) [VInt 2])]
    = ok (VList [VInt 1]) h'
    /\ get_stream h' 0 = Some (mkStream 0 true None [VInt 2]).
Proof.
  exact (applyToStream_maps (spec_key_select "a") (apply no_resolver 2 (FKeySelector "a")) 3
           (mkStream 0 true (Some (VStrMap [("a"%string, VInt 1)])) [VInt 2]) []
           [OStream (mkStream 0 true (Some (VStrMap [("a"%string, VInt 1)])) [VInt 2])] 0
           ltac:(intros x hh [<-|[]] _; exists hh; split; reflexivity)
           eq_refl ltac:(simpl; lia) ltac:(simpl; lia)).
Defined.

Lemma Filter_Apply_dotted_path_witness :
  Filter_Apply no_resolver 13 (dotted ["a"; "b"])
    (VStrMap [("a", VStrMap [("b", VInt 1)])]) [] = ok (VInt 1) [].
Proof.
  exact (Filter_Apply_dotted_path no_resolver 13 ["a"; "b"]
           (VStrMap [("a", VStrMap [("b", VInt 1)])]) [] eq_refl eq_refl
           ltac:(simpl; lia)).
Defined.

Lemma iterate_all_raw_witness :
  exists s, Filter_Apply no_resolver 22 ".[]" (VList [VInt 1; VInt 2]) []
            = ok (VList [VInt 1; VInt 2]) ([] ++ [OStream s])
    /\ fst (valueStream_Next s) = None.
Proof.
  exact (iterate_all_raw no_resolver 22 (VList [VInt 1; VInt 2]) [VInt 1; VInt 2] []
           eq_refl eq_refl ltac:(simpl; lia)).
Defined.

Lemma iterate_all_twice_witness :
  exists h', Filter_Apply no_resolver 22 ".[] | .[]" (VList [VInt 1; VInt 2]) []
             = ok (VList [VList [VInt 1; VInt 2]]) h'.
Proof.
  exact (iterate_all_twice no_resolver 22 (VList [VInt 1; VInt 2]) [VInt 1; VInt 2] []
           eq_refl eq_refl ltac:(simpl; lia)).
Defined.

Lemma Filter_Apply_comma_witness :
  Filter_Apply no_resolver 20 (comma_src ["a"] ["b"])
    (VStrMap [("a", VStrMap [("b", VInt 1)]); ("b", VInt 2)]) []
  = ok (VList [VInt 1]) [].
Proof.
  exact (Filter_Apply_comma no_resolver 20 ["a"] ["b"]
           (VStrMap [("a", VStrMap [("b", VInt 1)]); ("b", VInt 2)]) []
           ltac:(discriminate) ltac:(discriminate) eq_refl eq_refl eq_refl
           ltac:(simpl; lia)).
Defined.

Lemma Filter_Apply_trailing_blank_witness :
  Filter_Apply no_resolver 12 (String.append (dotted ["a"]) (String "009" EmptyString))
    (VStrMap [("a", VInt 1)]) []
  = ok VNull [].
Proof.
  exact (Filter_Apply_trailing_blank no_resolver 12 ["a"] "009" (VStrMap [("a", VInt 1)]) []
           ltac:(discriminate) eq_refl eq_refl eq_refl ltac:(simpl; lia)).
Defined.

Lemma Filter_Apply_quoted_witness :
  Filter_Apply no_resolver 4 (quoted " hi ") VNull [] = ok (VString "hi") [].
Proof.
  exact (Filter_Apply_quoted no_resolver 4 " hi " VNull [] eq_refl eq_refl
           ltac:(vm_compute; discriminate) ltac:(intros p Hp; discriminate Hp)
           ltac:(lia)).
Defined.

Lemma Filter_Apply_not_stream_witness :
  Filter_Apply no_resolver 22 ".[]" (VList [VInt 1]) []
    = ((VList [VInt 1], None), [OStream (mkStream 1 false None [VInt 1])])
  /\ VList [VInt 1] <> VStream 0.
Proof.
  split; [vm_compute; reflexivity|].
  exact (Filter_Apply_not_stream no_resolver 22 ".[]" (VList [VInt 1]) []
           (VList [VInt 1]) [OStream (mkStream 1 false None [VInt 1])]
           ltac:(vm_compute; reflexivity) 0).
Defined.

Lemma Filter_Apply_nested_stream_witness :
  exists s, Filter_Apply no_resolver 20 "[.[]]" (VList [VInt 1]) []
            = ok (VList [VStream 0]) ([] ++ [OStream s])
    /\ fst (valueStream_Next_n 1 s) = [Some (VInt 1)].
Proof.
  exact (Filter_Apply_nested_stream no_resolver 20 (VList [VInt 1]) [VInt 1] []
           eq_refl eq_refl ltac:(lia)).
Defined.

Lemma object_mapping_keys_witness :
  exists kvs, VStrMap [("a", VNull)] = VStrMap kvs /\ map fst kvs = ["a"].
Proof.
  exact (object_mapping_keys no_resolver 2 [("a", FIdentity)] VNull []
           (VStrMap [("a", VNull)]) [] ltac:(intros p Hp; discriminate Hp) eq_refl).
Defined.

End Witnesses.

(** ** C1: a numeric literal over a stream *)

Section StreamLiterals.
Local Open Scope list_scope.

(** The parse of [.[] | 5] and of [.[] | "x"]. *)
Lemma parse_iterate_numeric (m : nat) :
  filters (20 + m) (init_pstate (tokens ".[] | 5")) []
  = inl [FSelector [FIdentity; FIterateAll]; FNumericLiteral 5].
Proof. vm_compute. reflexivity. Qed.

Lemma parse_iterate_string (m : nat) :
  filters (20 + m) (init_pstate (tokens (String.append ".[] | " (quoted "x")))) []
  = inl [FSelector [FIdentity; FIterateAll]; FStringLiteral "x"].
Proof. vm_compute. reflexivity. Qed.

(** C1 (code bug): over a list of non-stream elements,
    [.[] | "x"] re-dispatches the string literal once per streamed element
    and yields one ["x"] per element, but [.[] | 5] yields the numeric
    literal 5 once, and the stream is never read: [fNumericLiteral.apply]
    has no [*valueStream] branch. *)
Theorem C1_numeric_literal_ignores_stream :
  forall resolve fuel l h,
    (forall x, In x l -> forall p, x <> VStream p) ->
    (length l + 20 <= fuel)%nat ->
    Filter_Apply resolve fuel ".[] | 5" (VList l) h
    = ok (VNumLit 5) (h ++ [OStream (mkStream 0 false None l)])
 /\ exists h', Filter_Apply resolve fuel (String.append ".[] | " (quoted "x")) (VList l) h
    = ok (VList (repeat (VString "x") (length l))) h'.
Proof.
  intros resolve fuel l h Hl Hf.
  replace fuel with (20 + (fuel - 20))%nat by lia.
  set (m := (fuel - 20)%nat).
  split.
  - unfold Filter_Apply. rewrite parse_iterate_numeric.
    change (20 + m)%nat with (S (S (S (17 + m)))).
    cbv beta iota fix zeta.
    rewrite apply_selector_step. reflexivity.
  - unfold Filter_Apply. rewrite parse_iterate_string.
    change (20 + m)%nat with (S (S (S (17 + m)))).
    cbv beta iota fix zeta.
    rewrite apply_selector_step.
    change (chain (apply resolve (S (S (17 + m)))) [FIdentity; FIterateAll] (VList l) h)
      with (ok (VStream (length h)) (h ++ [OStream (mkStream 0 false None l)])).
    cbv beta iota delta [ok].
    change (apply resolve (S (S (S (17 + m)))) (FStringLiteral "x") (VStream (length h))
              (h ++ [OStream (mkStream 0 false None l)]))
      with (applyToStream (S (S (17 + m))) (apply resolve (S (S (17 + m))) (FStringLiteral "x"))
              (length h) [] (h ++ [OStream (mkStream 0 false None l)])).
    rewrite (applyToStream_pure (fun _ => VString "x") _ (S (S (17 + m))) l 0 [] _ (length h)).
    + eexists. rewrite map_const. reflexivity.
    + intros x h' Hx. cbn [skipn] in Hx. destruct x; try reflexivity.
      exfalso. exact (Hl _ Hx p eq_refl).
    + unfold get_stream. rewrite nth_error_app_length. reflexivity.
    + lia.
    + simpl. lia.
Qed.

Lemma C1_numeric_literal_ignores_stream_witness :
  (forall x, In x abc -> forall p, x <> VStream p) /\ (length abc + 20 <= 23)%nat
  /\ (Filter_Apply no_resolver 23 ".[] | 5" (VList abc) []
      = ok (VNumLit 5) ([] ++ [OStream (mkStream 0 false None abc)])
   /\ exists h', Filter_Apply no_resolver 23 (String.append ".[] | " (quoted "x")) (VList abc) []
      = ok (VList (repeat (VString "x") (length abc))) h').
Proof.
  assert (H : forall x, In x abc -> forall p, x <> VStream p)
    by (intros x [<-|[<-|[<-|[]]]] p; discriminate).
  split; [exact H|]. split; [simpl; lia|].
  exact (C1_numeric_literal_ignores_stream no_resolver 23 abc [] H ltac:(simpl; lia)).
Defined.

End StreamLiterals.

(** ** C7: index ranges over an Iterator (general form) *)

Section IteratorRange.
Local Open Scope Z_scope.



End IteratorRange.

(** ** C8: binary operations (general form) *)

Section BinaryOps.
Local Open Scope Z_scope.



End BinaryOps.
